(** * CatastropheSim: a single-CPU scheduler simulation under catastrophic faults

    A shallow embedding of [CatastropheSim.py].  The program is a discrete-event
    simulation written against the SimPy library: the workload generator, the
    fault injector, the scheduler's run loop and every service activity are
    Python generators that suspend on events ([yield]) and are resumed by the
    event loop in order of (time, priority, insertion).

    Each generator becomes a resumable state machine: a constructor of [Code]
    names the [yield] at which the generator is suspended together with its live
    local variables, and a [resume] function runs the source text from that
    [yield] to the next one.  The functions of the program keep their names,
    grouped in one module per Python class.  The SimPy objects the program uses
    (event queue, timeouts, processes and interruption, [Resource],
    [PreemptiveResource], [Store], [PriorityStore]) are modelled after the
    library's behaviour, as far as the program exercises it.

    Numbers.  Simulated times and service demands are Python floats; they are
    taken here as exact rationals ([Q]), so rounding is not modelled.  A draw
    [random.expovariate(rate)] is [e / rate] for a unit-rate sample [e >= 0]
    supplied by an oracle, and raises [ZeroDivisionError] when [rate] is zero,
    as the library's division does. *)

From Stdlib Require Import List Bool Arith ZArith QArith Qround Qminmax Lia Lqa.
Import ListNotations.
Local Open Scope Q_scope.

Set Implicit Arguments.

(** ** Numbers *)

Definition Qltb (a b : Q) : bool := negb (Qle_bool b a).
Definition Qleb (a b : Q) : bool := Qle_bool a b.
Definition Qeqb (a b : Q) : bool := Qeq_bool a b.

(** Python's [min(a, b)]: [b] when [b < a], otherwise [a]. *)
Definition py_min (a b : Q) : Q := if Qltb b a then b else a.

Lemma Qltb_lt a b : Qltb a b = true <-> a < b.
Proof.
  unfold Qltb. rewrite negb_true_iff, <- not_true_iff_false, Qle_bool_iff.
  split; [apply Qnot_le_lt | apply Qlt_not_le].
Qed.

Lemma Qltb_ge a b : Qltb a b = false <-> b <= a.
Proof.
  unfold Qltb. rewrite negb_false_iff, Qle_bool_iff. reflexivity.
Qed.

Lemma Qleb_le a b : Qleb a b = true <-> a <= b.
Proof. apply Qle_bool_iff. Qed.

Lemma Qeqb_eq a b : Qeqb a b = true <-> a == b.
Proof. apply Qeq_bool_iff. Qed.

Fixpoint Qsum (l : list Q) : Q :=
  match l with
  | [] => 0
  | x :: l' => x + Qsum l'
  end.

(** [statistics.mean], which raises on an empty list; callers test first. *)
Definition mean (l : list Q) : Q := Qsum l / inject_Z (Z.of_nat (length l)).

(** ** Configuration: the readjustable parameters at the top of the file *)

Record Config := {
  LAMBDA : Q;        (* mean arrival rate *)
  MU : Q;            (* mean service rate *)
  XI : Q;            (* mean rate of catastrophes *)
  BETA : Q;          (* mean rate of restoration *)
  RR_QUANTUM : Q;    (* Round-Robin quantum *)
  SIM_DURATION : Q   (* total simulation time *)
}.

Definition default_config : Config :=
  {| LAMBDA := 8 # 10; MU := 1; XI := 5 # 100; BETA := 2 # 10;
     RR_QUANTUM := 3 # 10; SIM_DURATION := 10000000 |}.

(** The four scheduler classes that [__main__] can instantiate. *)
Inductive Policy := FCFS | SJF | RR | PreemptivePriority.

(** The random source: unit-rate exponential samples and raw integers, read in
    program order through a counter kept in the state. *)
Record Oracle := {
  exp_sample : nat -> Q;
  int_sample : nat -> Z
}.

(** ** Data model *)

Definition Pid := nat.
Definition ActId := nat.   (* a SimPy [Process] object (an activity) *)

(** The identity of a SimPy event object: its class and a serial number.  A
    process is itself an event, triggered when its generator ends. *)
Inductive EvId :=
| EInitialize (n : nat)
| ETimeout (n : nat)
| EInterruption (n : nat)
| EProcess (a : ActId)
| EStorePut (n : nat)
| EStoreGet (n : nat)
| ERequest (n : nat)
| ERelease (n : nat)
| EUntil (n : nat).

Definition evid_eqb (x y : EvId) : bool :=
  match x, y with
  | EInitialize n, EInitialize m
  | ETimeout n, ETimeout m
  | EInterruption n, EInterruption m
  | EProcess n, EProcess m
  | EStorePut n, EStorePut m
  | EStoreGet n, EStoreGet m
  | ERequest n, ERequest m
  | ERelease n, ERelease m
  | EUntil n, EUntil m => (n =? m)%nat
  | _, _ => false
  end.

Record Process := {
  pid : Pid;
  arrival_time : Q;
  burst_time_initial : Q;
  burst_time_remaining : Q;
  priority : Z
}.

Definition set_burst_time_remaining (r : Q) (p : Process) : Process :=
  {| pid := pid p; arrival_time := arrival_time p;
     burst_time_initial := burst_time_initial p;
     burst_time_remaining := r; priority := priority p |}.

(** The cause carried by a [simpy.Interrupt]: the string ["catastrophe"] passed
    by the program, or the [Preempted] record the preemptive resource passes. *)
Inductive Cause := Catastrophe | Preempted.

Inductive Exn :=
| ZeroDivisionError
| ValueError
| RuntimeError
| UnboundLocalError
| KeyError
| Interrupt (cause : Cause)
| Dangling.   (* a reference to an object absent from the tables; it keeps
                 the lookups of the model total *)

(** What the program prints, one constructor per [print] of the source. *)
Inductive LogEntry :=
| LArrival (t : Q) (p : Pid) (burst : Q) (prio : Z)
| LCatastrophe (t : Q)
| LQueueLost
| LRestored (t : Q) (downtime : Q)
| LInterrupt (t : Q) (p : Pid)
| LExecute (t : Q) (p : Pid) (waited : Q)
| LComplete (t : Q) (p : Pid)
| LResume (t : Q) (p : Pid)
| LPreempt (t : Q) (p : Pid) (rem : Q)
| LPreemptPriority (t : Q) (p : Pid) (rem : Q).

Arguments LArrival t%_Q p%_nat burst%_Q prio%_Z.
Arguments LInterrupt t%_Q p%_nat.
Arguments LExecute t%_Q p%_nat waited%_Q.
Arguments LComplete t%_Q p%_nat.
Arguments LResume t%_Q p%_nat.
Arguments LPreempt t%_Q p%_nat rem%_Q.
Arguments LPreemptPriority t%_Q p%_nat rem%_Q.

(** *** SimPy objects *)

(** An item of a store: a [Process] put directly (FCFS) or wrapped in a
    [PriorityItem] (SJF).  Processes are referred to by [pid]: the process
    objects themselves live in the table [procs], since they are shared. *)
Inductive Item :=
| Plain (p : Pid)
| PriorityItem (prio : Q) (item : Pid).

(** [getattr(item, 'item', item)] *)
Definition item_process (i : Item) : Pid :=
  match i with Plain p => p | PriorityItem _ p => p end.

Inductive StoreKind := FifoStore | PriorityStore.

Record Store := {
  store_kind : StoreKind;
  items : list Item;
  get_queue : list nat     (* pending [get()] events, oldest first *)
}.

(** A [Request] on the CPU resource. *)
Record Request := {
  req_ev : nat;            (* the request is the event [ERequest req_ev] *)
  req_proc : ActId;
  req_priority : Z;
  req_time : Q
}.

Record Resource := {
  preemptive : bool;
  users : list Request;
  put_queue : list Request
}.

(** What an entry of the event queue does when it is processed. *)
Inductive Payload :=
| PInitialize (a : ActId)
| PTimeout
| PInterruption (a : ActId) (cause : Cause)
| PProcess (a : ActId) (failed : option Exn)
| PStorePut (s : nat)
| PStoreGet (i : Item)
| PRequest
| PRelease
| PUntil.

Record QEntry := {
  q_time : Q;
  q_urgent : bool;
  q_seq : nat;
  q_ev : EvId;
  q_payload : Payload
}.

(** The scheduler's [ready_queue] attribute: a reference to a store object
    (FCFS, SJF), or the deque itself (Round-Robin, Preemptive-Priority). *)
Inductive Ready :=
| StoreRef (s : nat)
| Deque (l : list Pid).

(** Where a generator is suspended, with its live locals. *)
Inductive Code :=
(* process_generator *)
| GenInit
| GenArrival (pid_counter : nat)
| GenDown (pid_counter : nat) (burst_time : Q)
(* fault_injector *)
| FaultInit
| FaultWait
| FaultRepair (repair_duration : Q)
(* NonPreemptiveScheduler.run *)
| NPInit
| NPDown
| NPGet
| NPServing (p : Pid)
(* NonPreemptiveScheduler.serve_process *)
| NPServeInit (p : Pid)
| NPServeReq (p : Pid) (req : Request)
| NPServeExec (p : Pid) (req : Request)
(* RR_Scheduler.run *)
| RRInit
| RRDown
| RRIdle
| RRServing (p : Pid)
(* RR_Scheduler.serve_process *)
| RRServeInit (p : Pid)
| RRServeReq (p : Pid) (req : Request)
| RRServeExec (p : Pid) (req : Request) (time_to_run : Q)
(* Preemptive_Priority_Scheduler.run *)
| PPInit
| PPDown
| PPTick
(* Preemptive_Priority_Scheduler.serve_process *)
| PPServeInit (p : Pid)
| PPServeReq (p : Pid) (req : Request) (start_wait : Q)
| PPServeExec (p : Pid) (req : Request) (start_wait : Q) (start_exec_time : Q).

Record Activity := {
  act_id : ActId;
  code : Code;
  target : option EvId;       (* the event the generator waits for *)
  triggered : option (option Exn)
    (* [None] while alive; [Some None] returned; [Some (Some e)] failed *)
}.

(** *** The state of a run *)

Record Env := {
  now : Q;
  queue : list QEntry;          (* ordered by (time, priority, insertion) *)
  next_eid : nat;
  next_obj : nat;
  active_process : option ActId;
  activities : list Activity
}.

Record Globals := {
  wait_times : list Q;
  recovery_times : list Q;
  total_downtime : Q;
  last_restoration_time : Q;
  system_operational : bool
}.

Record Scheduler := {
  sched_class : Policy;
  running_process_event : option ActId;
  is_recovering : bool;
  active_processes : list (Pid * ActId);   (* a dict, in insertion order *)
  ready_queue : Ready;
  cpu : Resource
}.

Record World := {
  cfg : Config;
  rng : Oracle;
  env : Env;
  glob : Globals;
  sched : Scheduler;
  stores : list Store;      (* every store object ever created, by identity *)
  procs : list Process;     (* every process object ever created *)
  draws : nat;              (* how many random draws were made *)
  log : list LogEntry       (* newest last *)
}.

(** Field updates. *)

Definition with_env (f : Env -> Env) (w : World) : World :=
  {| cfg := cfg w; rng := rng w; env := f (env w); glob := glob w;
     sched := sched w; stores := stores w; procs := procs w;
     draws := draws w; log := log w |}.
Definition with_glob (f : Globals -> Globals) (w : World) : World :=
  {| cfg := cfg w; rng := rng w; env := env w; glob := f (glob w);
     sched := sched w; stores := stores w; procs := procs w;
     draws := draws w; log := log w |}.
Definition with_sched (f : Scheduler -> Scheduler) (w : World) : World :=
  {| cfg := cfg w; rng := rng w; env := env w; glob := glob w;
     sched := f (sched w); stores := stores w; procs := procs w;
     draws := draws w; log := log w |}.
Definition with_stores (f : list Store -> list Store) (w : World) : World :=
  {| cfg := cfg w; rng := rng w; env := env w; glob := glob w;
     sched := sched w; stores := f (stores w); procs := procs w;
     draws := draws w; log := log w |}.
Definition with_procs (f : list Process -> list Process) (w : World) : World :=
  {| cfg := cfg w; rng := rng w; env := env w; glob := glob w;
     sched := sched w; stores := stores w; procs := f (procs w);
     draws := draws w; log := log w |}.
Definition with_draws (n : nat) (w : World) : World :=
  {| cfg := cfg w; rng := rng w; env := env w; glob := glob w;
     sched := sched w; stores := stores w; procs := procs w;
     draws := n; log := log w |}.
Definition with_log (f : list LogEntry -> list LogEntry) (w : World) : World :=
  {| cfg := cfg w; rng := rng w; env := env w; glob := glob w;
     sched := sched w; stores := stores w; procs := procs w;
     draws := draws w; log := f (log w) |}.

Definition set_now (t : Q) (e : Env) : Env :=
  {| now := t; queue := queue e; next_eid := next_eid e; next_obj := next_obj e;
     active_process := active_process e; activities := activities e |}.
Definition set_queue (q : list QEntry) (e : Env) : Env :=
  {| now := now e; queue := q; next_eid := next_eid e; next_obj := next_obj e;
     active_process := active_process e; activities := activities e |}.
Definition set_next_eid (n : nat) (e : Env) : Env :=
  {| now := now e; queue := queue e; next_eid := n; next_obj := next_obj e;
     active_process := active_process e; activities := activities e |}.
Definition set_next_obj (n : nat) (e : Env) : Env :=
  {| now := now e; queue := queue e; next_eid := next_eid e; next_obj := n;
     active_process := active_process e; activities := activities e |}.
Definition set_active_process (a : option ActId) (e : Env) : Env :=
  {| now := now e; queue := queue e; next_eid := next_eid e;
     next_obj := next_obj e; active_process := a; activities := activities e |}.
Definition set_activities (l : list Activity) (e : Env) : Env :=
  {| now := now e; queue := queue e; next_eid := next_eid e;
     next_obj := next_obj e; active_process := active_process e;
     activities := l |}.

Definition set_wait_times (l : list Q) (g : Globals) : Globals :=
  {| wait_times := l; recovery_times := recovery_times g;
     total_downtime := total_downtime g;
     last_restoration_time := last_restoration_time g;
     system_operational := system_operational g |}.
Definition set_recovery_times (l : list Q) (g : Globals) : Globals :=
  {| wait_times := wait_times g; recovery_times := l;
     total_downtime := total_downtime g;
     last_restoration_time := last_restoration_time g;
     system_operational := system_operational g |}.
Definition set_total_downtime (d : Q) (g : Globals) : Globals :=
  {| wait_times := wait_times g; recovery_times := recovery_times g;
     total_downtime := d;
     last_restoration_time := last_restoration_time g;
     system_operational := system_operational g |}.
Definition set_last_restoration_time (t : Q) (g : Globals) : Globals :=
  {| wait_times := wait_times g; recovery_times := recovery_times g;
     total_downtime := total_downtime g;
     last_restoration_time := t;
     system_operational := system_operational g |}.
Definition set_system_operational (b : bool) (g : Globals) : Globals :=
  {| wait_times := wait_times g; recovery_times := recovery_times g;
     total_downtime := total_downtime g;
     last_restoration_time := last_restoration_time g;
     system_operational := b |}.

Definition set_running_process_event (a : option ActId) (s : Scheduler)
  : Scheduler :=
  {| sched_class := sched_class s; running_process_event := a;
     is_recovering := is_recovering s; active_processes := active_processes s;
     ready_queue := ready_queue s; cpu := cpu s |}.
Definition set_is_recovering (b : bool) (s : Scheduler) : Scheduler :=
  {| sched_class := sched_class s;
     running_process_event := running_process_event s;
     is_recovering := b; active_processes := active_processes s;
     ready_queue := ready_queue s; cpu := cpu s |}.
Definition set_active_processes (d : list (Pid * ActId)) (s : Scheduler)
  : Scheduler :=
  {| sched_class := sched_class s;
     running_process_event := running_process_event s;
     is_recovering := is_recovering s; active_processes := d;
     ready_queue := ready_queue s; cpu := cpu s |}.
Definition set_ready_queue (r : Ready) (s : Scheduler) : Scheduler :=
  {| sched_class := sched_class s;
     running_process_event := running_process_event s;
     is_recovering := is_recovering s; active_processes := active_processes s;
     ready_queue := r; cpu := cpu s |}.
Definition set_cpu (c : Resource) (s : Scheduler) : Scheduler :=
  {| sched_class := sched_class s;
     running_process_event := running_process_event s;
     is_recovering := is_recovering s; active_processes := active_processes s;
     ready_queue := ready_queue s; cpu := c |}.

(** ** A state-and-exception monad

    A computation transforms the world and either returns a value or raises a
    Python exception; what it did before raising stays done. *)

Inductive Outcome (A : Type) :=
| Val (a : A)
| Exc (e : Exn).
Arguments Exc {A} e.

Definition M (A : Type) : Type := World -> World * Outcome A.

Definition ret {A} (a : A) : M A := fun w => (w, Val a).
Definition bind {A B} (m : M A) (k : A -> M B) : M B :=
  fun w => match m w with
           | (w', Val a) => k a w'
           | (w', Exc e) => (w', Exc e)
           end.
Definition raise {A} (e : Exn) : M A := fun w => (w, Exc e).
Definition gets {A} (f : World -> A) : M A := fun w => (w, Val (f w)).
Definition modify (f : World -> World) : M unit := fun w => (f w, Val tt).

(** [try: m except Exception as e: h e] *)
Definition catch {A} (m : M A) (h : Exn -> M A) : M A :=
  fun w => match m w with
           | (w', Val a) => (w', Val a)
           | (w', Exc e) => h e w'
           end.

(** Run [m] and hand back how it ended, exception included. *)
Definition attempt {A} (m : M A) : M (Outcome A) :=
  fun w => (fst (m w), Val (snd (m w))).

Declare Scope sim_scope.
Delimit Scope sim_scope with sim.
Notation "x <- m ;; k" := (bind m (fun x => k))
  (at level 61, m at next level, right associativity) : sim_scope.
Notation "m ;; k" := (bind m (fun _ => k))
  (at level 61, right associativity) : sim_scope.
Local Open Scope sim_scope.

Definition when (b : bool) (m : M unit) : M unit := if b then m else ret tt.

Definition print (e : LogEntry) : M unit :=
  modify (with_log (fun l => l ++ [e])).

(** ** The SimPy objects the program uses *)

Module simpy.

(** *** The event queue *)

(** Heap order of the queue: time, then urgent before normal, then insertion. *)
Definition entry_before (e x : QEntry) : bool :=
  Qltb (q_time e) (q_time x)
  || (Qeqb (q_time e) (q_time x)
      && ((q_urgent e && negb (q_urgent x))
          || (Bool.eqb (q_urgent e) (q_urgent x)
              && (q_seq e <? q_seq x)%nat))).

Fixpoint insert_entry (e : QEntry) (q : list QEntry) : list QEntry :=
  match q with
  | [] => [e]
  | x :: q' => if entry_before e x then e :: q else x :: insert_entry e q'
  end.

(** [Environment.schedule(event, priority, delay)] *)
Definition schedule (urgent : bool) (delay : Q) (ev : EvId) (p : Payload)
  : M unit :=
  modify (with_env (fun e =>
    set_next_eid (S (next_eid e))
      (set_queue
         (insert_entry {| q_time := now e + delay; q_urgent := urgent;
                          q_seq := next_eid e; q_ev := ev; q_payload := p |}
                       (queue e)) e))).

(** A new object identity. *)
Definition fresh : M nat :=
  n <- gets (fun w => next_obj (env w)) ;;
  modify (with_env (set_next_obj (S n))) ;;
  ret n.

(** [env.timeout(delay)] *)
Definition timeout (delay : Q) : M EvId :=
  if Qltb delay 0 then raise ValueError
  else ev <- fresh ;;
       schedule false delay (ETimeout ev) PTimeout ;;
       ret (ETimeout ev).

(** *** Processes *)

Fixpoint find_activity (a : ActId) (l : list Activity) : option Activity :=
  match l with
  | [] => None
  | x :: l' => if (act_id x =? a)%nat then Some x else find_activity a l'
  end.

Definition update_activity (a : ActId) (f : Activity -> Activity)
  (l : list Activity) : list Activity :=
  map (fun x => if (act_id x =? a)%nat then f x else x) l.

Definition activity (a : ActId) : M Activity :=
  l <- gets (fun w => activities (env w)) ;;
  match find_activity a l with
  | Some x => ret x
  | None => raise Dangling
  end.

(** [env.process(generator)]: the generator is created suspended before its
    first statement, and an urgent [Initialize] event will start it. *)
Definition process (c : Code) : M ActId :=
  a <- fresh ;;
  i <- fresh ;;
  modify (with_env (fun e =>
    set_activities
      (activities e ++ [{| act_id := a; code := c;
                           target := Some (EInitialize i);
                           triggered := None |}]) e)) ;;
  schedule true 0 (EInitialize i) (PInitialize a) ;;
  ret a.

(** [event.triggered], for a process: it has returned or failed. *)
Definition is_triggered (a : ActId) : M bool :=
  x <- activity a ;;
  ret (match triggered x with Some _ => true | None => false end).

(** [process.interrupt(cause)] *)
Definition interrupt (a : ActId) (cause : Cause) : M unit :=
  t <- is_triggered a ;;
  if t then raise RuntimeError
  else
    me <- gets (fun w => active_process (env w)) ;;
    if match me with Some m => (m =? a)%nat | None => false end
    then raise RuntimeError
    else ev <- fresh ;;
         schedule true 0 (EInterruption ev) (PInterruption a cause).

(** *** The random module *)

(** [random.expovariate(lambd)] is [-log(1 - random()) / lambd]: the sample is
    drawn first, the division may then raise. *)
Definition expovariate (lambd : Q) : M Q :=
  k <- gets draws ;;
  modify (with_draws (S k)) ;;
  e <- gets (fun w => exp_sample (rng w) k) ;;
  if Qeqb lambd 0 then raise ZeroDivisionError else ret (e / lambd).

(** [random.randint(1, 10)] *)
Definition randint_1_10 : M Z :=
  k <- gets draws ;;
  modify (with_draws (S k)) ;;
  z <- gets (fun w => int_sample (rng w) k) ;;
  ret (1 + z mod 10)%Z.

(** *** [Resource] and [PreemptiveResource], capacity 1 *)

Definition same_request (a b : Request) : bool := (req_ev a =? req_ev b)%nat.

Definition remove_request (r : Request) (l : list Request) : list Request :=
  filter (fun x => negb (same_request x r)) l.

(** The key of a priority request is [(priority, time, not preempt)]; every
    request of the program has [preempt = True]. *)
Definition key_lt (a b : Request) : bool :=
  (req_priority a <? req_priority b)%Z
  || ((req_priority a =? req_priority b)%Z && Qltb (req_time a) (req_time b)).

(** [SortedQueue.append]: append, then a stable sort by key. *)
Fixpoint insert_sorted (r : Request) (q : list Request) : list Request :=
  match q with
  | [] => [r]
  | x :: q' => if key_lt r x then r :: q else x :: insert_sorted r q'
  end.

(** [sorted(self.users, key=...)[-1]] *)
Fixpoint max_key (l : list Request) : option Request :=
  match l with
  | [] => None
  | x :: l' => match max_key l' with
               | Some y => if key_lt y x then Some x else Some y
               | None => Some x
               end
  end.

Definition get_cpu : M Resource := gets (fun w => cpu (sched w)).
Definition set_users (l : list Request) : M unit :=
  modify (with_sched (fun s =>
    set_cpu {| preemptive := preemptive (cpu s); users := l;
               put_queue := put_queue (cpu s) |} s)).
Definition set_put_queue (l : list Request) : M unit :=
  modify (with_sched (fun s =>
    set_cpu {| preemptive := preemptive (cpu s); users := users (cpu s);
               put_queue := l |} s)).

(** [cpu.count] *)
Definition count (c : Resource) : nat := length (users c).

(** [PreemptiveResource._do_put], then [Resource._do_put]. *)
Definition do_put (r : Request) : M unit :=
  c <- get_cpu ;;
  (if preemptive c && (1 <=? length (users c))%nat then
     match max_key (users c) with
     | Some victim =>
         if key_lt r victim then
           set_users (remove_request victim (users c)) ;;
           interrupt (req_proc victim) Preempted
         else ret tt
     | None => ret tt
     end
   else ret tt) ;;
  c <- get_cpu ;;
  if (length (users c) <? 1)%nat then
    set_users (users c ++ [r]) ;;
    schedule false 0 (ERequest (req_ev r)) PRequest    (* event.succeed() *)
  else ret tt.

(** [BaseResource._trigger_put]: [_do_put] returns [None], so only the head of
    the queue is tried. *)
Definition trigger_put : M unit :=
  c <- get_cpu ;;
  match put_queue c with
  | [] => ret tt
  | r :: _ =>
      do_put r ;;
      c' <- get_cpu ;;
      if existsb (same_request r) (users c')
      then set_put_queue (remove_request r (put_queue c'))
      else ret tt
  end.

(** [cpu.request()] and [cpu.request(priority=...)] *)
Definition request (prio : Z) : M Request :=
  ev <- fresh ;;
  me <- gets (fun w => active_process (env w)) ;;
  t <- gets (fun w => now (env w)) ;;
  match me with
  | None => raise Dangling
  | Some a =>
      let r := {| req_ev := ev; req_proc := a; req_priority := prio;
                  req_time := t |} in
      c <- get_cpu ;;
      set_put_queue (if preemptive c then insert_sorted r (put_queue c)
                     else put_queue c ++ [r]) ;;
      trigger_put ;;
      ret r
  end.

(** [cpu.release(request)]: the request leaves [users] at once; the waiting
    requests are looked at when the release event is processed. *)
Definition release (r : Request) : M unit :=
  c <- get_cpu ;;
  set_users (remove_request r (users c)) ;;
  ev <- fresh ;;
  schedule false 0 (ERelease ev) PRelease.

(** [Request.__exit__], the end of a [with cpu.request() as req] block:
    a request not yet granted is withdrawn, then the resource is released. *)
Definition request_exit (r : Request) : M unit :=
  c <- get_cpu ;;
  set_put_queue (remove_request r (put_queue c)) ;;
  release r.

(** *** [Store] and [PriorityStore] *)

Definition item_key (i : Item) : Q :=
  match i with Plain _ => 0 | PriorityItem k _ => k end.

(** The priority store keeps the smallest key first, equal keys in insertion
    order. *)
Fixpoint insert_item (i : Item) (l : list Item) : list Item :=
  match l with
  | [] => [i]
  | x :: l' => if Qltb (item_key i) (item_key x) then i :: l
               else x :: insert_item i l'
  end.

Definition the_store (s : nat) : M Store :=
  l <- gets stores ;;
  match nth_error l s with
  | Some st => ret st
  | None => raise Dangling
  end.

Fixpoint replace_nth {A} (n : nat) (x : A) (l : list A) : list A :=
  match l, n with
  | [], _ => []
  | _ :: l', O => x :: l'
  | y :: l', S n' => y :: replace_nth n' x l'
  end.

Definition set_store (s : nat) (st : Store) : M unit :=
  modify (with_stores (replace_nth s st)).

(** [simpy.Store(env)] and [simpy.PriorityStore(env)]: a new, empty object. *)
Definition new_store (k : StoreKind) : M nat :=
  s <- gets (fun w => length (stores w)) ;;
  modify (with_stores (fun l =>
    l ++ [{| store_kind := k; items := []; get_queue := [] |}])) ;;
  ret s.

(** [store.put(item)]: the store is unbounded, the item goes in at once. *)
Definition put (s : nat) (i : Item) : M unit :=
  st <- the_store s ;;
  set_store s {| store_kind := store_kind st;
                 items := match store_kind st with
                          | FifoStore => items st ++ [i]
                          | PriorityStore => insert_item i (items st)
                          end;
                 get_queue := get_queue st |} ;;
  ev <- fresh ;;
  schedule false 0 (EStorePut ev) (PStorePut s).

(** [BaseResource._trigger_get] on a store: serve the oldest pending [get]. *)
Definition trigger_get (s : nat) : M unit :=
  st <- the_store s ;;
  match get_queue st, items st with
  | g :: gs, i :: rest =>
      set_store s {| store_kind := store_kind st; items := rest;
                     get_queue := gs |} ;;
      schedule false 0 (EStoreGet g) (PStoreGet i)
  | _, _ => ret tt
  end.

(** [store.get()] *)
Definition get (s : nat) : M EvId :=
  ev <- fresh ;;
  st <- the_store s ;;
  set_store s {| store_kind := store_kind st; items := items st;
                 get_queue := get_queue st ++ [ev] |} ;;
  trigger_get s ;;
  ret (EStoreGet ev).

End simpy.

(** ** The program *)

(** What a generator does when it is resumed: it runs to its next [yield],
    handing back the event it now waits for, or it returns. *)
Inductive Yielded :=
| Yield (c : Code) (ev : EvId)
| Return.

(** How a generator is resumed: with the value of the event it waited for, or
    with an exception thrown at its [yield]. *)
Inductive Resumed :=
| Send (v : option Item)
| Throw (e : Exn).

(** *** Globals and process objects *)

Definition env_now : M Q := gets (fun w => now (env w)).
Definition get_system_operational : M bool :=
  gets (fun w => system_operational (glob w)).
Definition get_ready_queue : M Ready := gets (fun w => ready_queue (sched w)).

Fixpoint find_process (p : Pid) (l : list Process) : option Process :=
  match l with
  | [] => None
  | x :: l' => if (pid x =? p)%nat then Some x else find_process p l'
  end.

Definition the_process (p : Pid) : M Process :=
  l <- gets procs ;;
  match find_process p l with
  | Some x => ret x
  | None => raise Dangling
  end.

(** [process.burst_time_remaining = r] *)
Definition assign_burst_time_remaining (p : Pid) (r : Q) : M unit :=
  modify (with_procs
            (map (fun x => if (pid x =? p)%nat
                           then set_burst_time_remaining r x else x))).

(** [Process.__init__(pid, arrival_time, burst_time)] *)
Definition Process_init (p : Pid) (arrival : Q) (burst_time : Q) : M Pid :=
  prio <- simpy.randint_1_10 ;;
  modify (with_procs (fun l =>
    l ++ [{| pid := p; arrival_time := arrival;
             burst_time_initial := burst_time;
             burst_time_remaining := burst_time; priority := prio |}])) ;;
  ret p.

(** [with self.cpu.request(...) as req: body], seen from one resumption of the
    generator: the block is left, and the request released, when the body
    raises or runs to its end; a [yield] keeps the generator inside it. *)
Definition with_request (req : Request) (body : M Yielded) : M Yielded :=
  o <- attempt body ;;
  match o with
  | Val (Yield c ev) => ret (Yield c ev)
  | Val Return => simpy.request_exit req ;; ret Return
  | Exc e => simpy.request_exit req ;; raise e
  end.

(** [self.ready_queue.append(process)] on a deque. *)
Definition deque_append (p : Pid) : M unit :=
  r <- get_ready_queue ;;
  match r with
  | Deque l => modify (with_sched (set_ready_queue (Deque (l ++ [p]))))
  | StoreRef _ => raise Dangling
  end.

(** The test that closes the recovery window; the three run loops spell the
    emptiness of the ready structure as [len(self.ready_queue.items) == 0]
    (stores) or [not self.ready_queue] (deques). *)
Definition ready_is_empty : M bool :=
  r <- get_ready_queue ;;
  match r with
  | Deque l => ret (match l with [] => true | _ => false end)
  | StoreRef s => st <- simpy.the_store s ;;
                  ret (length (items st) =? 0)%nat
  end.

Definition idle_and_drained : M bool :=
  rec <- gets (fun w => is_recovering (sched w)) ;;
  if negb rec then ret false
  else
    c <- simpy.get_cpu ;;
    if negb (simpy.count c =? 0)%nat then ret false else ready_is_empty.

(** The recovery block of every [run] loop:
[[
   if self.is_recovering and self.cpu.count == 0 and <ready structure empty>:
       recovery_time = self.env.now - last_restoration_time
       if recovery_time > 1e-6:
           recovery_times.append(recovery_time)
       self.is_recovering = False
]] *)
Definition close_recovery_window : M unit :=
  b <- idle_and_drained ;;
  if b then
    t <- env_now ;;
    last <- gets (fun w => last_restoration_time (glob w)) ;;
    let recovery_time := t - last in
    when (Qltb (1 # 1000000) recovery_time)
      (modify (with_glob (fun g =>
         set_recovery_times (recovery_times g ++ [recovery_time]) g))) ;;
    modify (with_sched (set_is_recovering false))
  else ret tt.

(** *** class Scheduler *)

Module Scheduler.

(** [handle_catastrophe] of the base class. *)
Definition handle_catastrophe : M unit :=
  rpe <- gets (fun w => running_process_event (sched w)) ;;
  match rpe with
  | Some a =>
      t <- simpy.is_triggered a ;;
      if negb t then simpy.interrupt a Catastrophe else ret tt
  | None => ret tt
  end ;;
  modify (with_sched (set_is_recovering false)) ;;
  print LQueueLost.

End Scheduler.

(** *** class NonPreemptiveScheduler *)

Module NonPreemptiveScheduler.

(** One pass of the [while True] loop of [run], from its top to the [yield]. *)
Definition run_loop : M Yielded :=
  op <- get_system_operational ;;
  if negb op then
    ev <- simpy.timeout (1 # 10) ;; ret (Yield NPDown ev)
  else
    close_recovery_window ;;
    r <- get_ready_queue ;;
    match r with
    | StoreRef s => ev <- simpy.get s ;; ret (Yield NPGet ev)
    | Deque _ => raise Dangling
    end.

Definition run (c : Code) (r : Resumed) : M Yielded :=
  match c, r with
  | NPInit, Send _ => run_loop
  | NPDown, Send _ => run_loop
  | NPGet, Send (Some item) =>
      let process := item_process item in
      a <- simpy.process (NPServeInit process) ;;
      modify (with_sched (set_running_process_event (Some a))) ;;
      ret (Yield (NPServing process) (EProcess a))
  | NPServing _, Send _ => run_loop
  | NPServing process, Throw (Interrupt cause) =>
      match cause with
      | Catastrophe => t <- env_now ;; print (LInterrupt t process)
      | Preempted => ret tt
      end ;;
      run_loop
  | _, Throw e => raise e
  | _, Send _ => raise Dangling
  end.

Definition serve_process (c : Code) (r : Resumed) : M Yielded :=
  match c, r with
  | NPServeInit process, Send _ =>
      req <- simpy.request 0 ;;
      ret (Yield (NPServeReq process req) (ERequest (req_ev req)))
  | NPServeReq process req, Send _ =>
      with_request req
        (start_time <- env_now ;;
         p <- the_process process ;;
         let wait_time := start_time - arrival_time p in
         modify (with_glob (fun g =>
           set_wait_times (wait_times g ++ [wait_time]) g)) ;;
         print (LExecute start_time process wait_time) ;;
         ev <- simpy.timeout (burst_time_initial p) ;;
         ret (Yield (NPServeExec process req) ev))
  | NPServeExec process req, Send _ =>
      with_request req
        (t <- env_now ;; print (LComplete t process) ;; ret Return)
  | NPServeReq _ req, Throw e => with_request req (raise e)
  | NPServeExec _ req, Throw e => with_request req (raise e)
  | _, Throw e => raise e
  | _, Send _ => raise Dangling
  end.

End NonPreemptiveScheduler.

(** *** class FCFS_Scheduler *)

Module FCFS_Scheduler.

Definition add_process (process : Pid) : M unit :=
  r <- get_ready_queue ;;
  match r with
  | StoreRef s => simpy.put s (Plain process)
  | Deque _ => raise Dangling
  end.

Definition handle_catastrophe : M unit :=
  Scheduler.handle_catastrophe ;;
  s <- simpy.new_store FifoStore ;;
  modify (with_sched (set_ready_queue (StoreRef s))).

End FCFS_Scheduler.

(** *** class SJF_Scheduler *)

Module SJF_Scheduler.

Definition add_process (process : Pid) : M unit :=
  r <- get_ready_queue ;;
  p <- the_process process ;;
  match r with
  | StoreRef s => simpy.put s (PriorityItem (burst_time_initial p) process)
  | Deque _ => raise Dangling
  end.

Definition handle_catastrophe : M unit :=
  Scheduler.handle_catastrophe ;;
  s <- simpy.new_store PriorityStore ;;
  modify (with_sched (set_ready_queue (StoreRef s))).

End SJF_Scheduler.

(** *** class RR_Scheduler *)

Module RR_Scheduler.

Definition add_process (process : Pid) : M unit := deque_append process.

Definition handle_catastrophe : M unit :=
  Scheduler.handle_catastrophe ;;
  modify (with_sched (set_ready_queue (Deque []))).

Definition run_loop : M Yielded :=
  op <- get_system_operational ;;
  if negb op then
    ev <- simpy.timeout (1 # 10) ;; ret (Yield RRDown ev)
  else
    close_recovery_window ;;
    r <- get_ready_queue ;;
    match r with
    | Deque [] =>
        ev <- simpy.timeout (1 # 100) ;; ret (Yield RRIdle ev)
    | Deque (process :: rest) =>
        modify (with_sched (set_ready_queue (Deque rest))) ;;
        a <- simpy.process (RRServeInit process) ;;
        modify (with_sched (set_running_process_event (Some a))) ;;
        ret (Yield (RRServing process) (EProcess a))
    | StoreRef _ => raise Dangling
    end.

Definition run (c : Code) (r : Resumed) : M Yielded :=
  match c, r with
  | RRInit, Send _ => run_loop
  | RRDown, Send _ => run_loop
  | RRIdle, Send _ => run_loop
  | RRServing _, Send _ => run_loop
  | RRServing process, Throw (Interrupt cause) =>
      match cause with
      | Catastrophe => t <- env_now ;; print (LInterrupt t process)
      | Preempted => ret tt
      end ;;
      run_loop
  | _, Throw e => raise e
  | _, Send _ => raise Dangling
  end.

Definition serve_process (c : Code) (r : Resumed) : M Yielded :=
  match c, r with
  | RRServeInit process, Send _ =>
      req <- simpy.request 0 ;;
      ret (Yield (RRServeReq process req) (ERequest (req_ev req)))
  | RRServeReq process req, Send _ =>
      with_request req
        (p <- the_process process ;;
         t <- env_now ;;
         (if Qeqb (burst_time_remaining p) (burst_time_initial p) then
            let wait_time := t - arrival_time p in
            modify (with_glob (fun g =>
              set_wait_times (wait_times g ++ [wait_time]) g)) ;;
            print (LExecute t process wait_time)
          else print (LResume t process)) ;;
         quantum <- gets (fun w => RR_QUANTUM (cfg w)) ;;
         let time_to_run := py_min quantum (burst_time_remaining p) in
         ev <- simpy.timeout time_to_run ;;
         ret (Yield (RRServeExec process req time_to_run) ev))
  | RRServeExec process req time_to_run, Send _ =>
      with_request req
        (p <- the_process process ;;
         let remaining := burst_time_remaining p - time_to_run in
         assign_burst_time_remaining process remaining ;;
         t <- env_now ;;
         if Qltb 0 remaining then
           print (LPreempt t process remaining) ;;
           deque_append process ;;
           ret Return
         else
           print (LComplete t process) ;;
           ret Return)
  | RRServeReq _ req, Throw e => with_request req (raise e)
  | RRServeExec _ req _, Throw e => with_request req (raise e)
  | _, Throw e => raise e
  | _, Send _ => raise Dangling
  end.

End RR_Scheduler.

(** *** class Preemptive_Priority_Scheduler *)

Module Preemptive_Priority_Scheduler.

Definition add_process (process : Pid) : M unit :=
  deque_append process ;;
  _ <- simpy.process (PPServeInit process) ;;
  ret tt.

(** [for x in values: if not x.triggered: x.interrupt("catastrophe")] *)
Fixpoint interrupt_all (l : list (Pid * ActId)) : M unit :=
  match l with
  | [] => ret tt
  | (_, process_event) :: l' =>
      t <- simpy.is_triggered process_event ;;
      (if negb t then simpy.interrupt process_event Catastrophe else ret tt) ;;
      interrupt_all l'
  end.

Definition handle_catastrophe : M unit :=
  d <- gets (fun w => active_processes (sched w)) ;;
  interrupt_all d ;;
  Scheduler.handle_catastrophe ;;
  modify (with_sched (set_ready_queue (Deque []))).

Definition run_loop : M Yielded :=
  op <- get_system_operational ;;
  if negb op then
    ev <- simpy.timeout (1 # 10) ;; ret (Yield PPDown ev)
  else
    close_recovery_window ;;
    ev <- simpy.timeout (1 # 10) ;; ret (Yield PPTick ev).

Definition run (c : Code) (r : Resumed) : M Yielded :=
  match c, r with
  | PPInit, Send _ => run_loop
  | PPDown, Send _ => run_loop
  | PPTick, Send _ => run_loop
  | _, Throw e => raise e
  | _, Send _ => raise Dangling
  end.

Definition dict_has (p : Pid) (d : list (Pid * ActId)) : bool :=
  existsb (fun kv => (fst kv =? p)%nat) d.
Definition dict_del (p : Pid) (d : list (Pid * ActId)) : list (Pid * ActId) :=
  filter (fun kv => negb (fst kv =? p)%nat) d.
(** [d[p] = a]: an existing key keeps its place, a new one goes last. *)
Fixpoint dict_set (p : Pid) (a : ActId) (d : list (Pid * ActId))
  : list (Pid * ActId) :=
  match d with
  | [] => [(p, a)]
  | (k, v) :: d' => if (k =? p)%nat then (k, a) :: d'
                    else (k, v) :: dict_set p a d'
  end.

(** [deque.remove(process)]: the first occurrence. *)
Fixpoint remove_first (p : Pid) (l : list Pid) : list Pid :=
  match l with
  | [] => []
  | x :: l' => if (x =? p)%nat then l' else x :: remove_first p l'
  end.

(** The [except simpy.Interrupt as i] clause of [serve_process];
    [start_exec_time] is bound only once the CPU was granted. *)
Definition on_interrupt (process : Pid) (start_exec_time : option Q)
  (cause : Cause) : M Yielded :=
  d <- gets (fun w => active_processes (sched w)) ;;
  when (dict_has process d)
    (modify (with_sched (set_active_processes (dict_del process d)))) ;;
  match cause with
  | Catastrophe =>
      t <- env_now ;; print (LInterrupt t process) ;; ret Return
  | Preempted =>
      match start_exec_time with
      | None => raise UnboundLocalError
      | Some start =>
          t <- env_now ;;
          let time_spent_executing := t - start in
          p <- the_process process ;;
          let remaining := burst_time_remaining p - time_spent_executing in
          assign_burst_time_remaining process remaining ;;
          print (LPreemptPriority t process remaining) ;;
          ret Return
      end
  end.

Definition try_except (process : Pid) (start_exec_time : option Q)
  (body : M Yielded) : M Yielded :=
  catch body (fun e => match e with
                       | Interrupt cause =>
                           on_interrupt process start_exec_time cause
                       | _ => raise e
                       end).

Definition serve_process (c : Code) (r : Resumed) : M Yielded :=
  match c, r with
  | PPServeInit process, Send _ =>
      start_wait <- env_now ;;
      try_except process None
        (p <- the_process process ;;
         req <- simpy.request (priority p) ;;
         with_request req
           (me <- gets (fun w => active_process (env w)) ;;
            match me with
            | Some a =>
                modify (with_sched (fun s =>
                  set_active_processes
                    (dict_set process a (active_processes s)) s)) ;;
                ret (Yield (PPServeReq process req start_wait)
                           (ERequest (req_ev req)))
            | None => raise Dangling
            end))
  | PPServeReq process req start_wait, Send _ =>
      try_except process None
        (with_request req
           (d <- gets (fun w => active_processes (sched w)) ;;
            (if dict_has process d
             then modify (with_sched
                            (set_active_processes (dict_del process d)))
             else raise KeyError) ;;
            t <- env_now ;;
            let wait_time := t - start_wait in
            modify (with_glob (fun g =>
              set_wait_times (wait_times g ++ [wait_time]) g)) ;;
            print (LExecute t process wait_time) ;;
            let start_exec_time := t in
            p <- the_process process ;;
            ev <- simpy.timeout (burst_time_remaining p) ;;
            ret (Yield (PPServeExec process req start_wait start_exec_time)
                       ev)))
  | PPServeExec process req _ start_exec_time, Send _ =>
      try_except process (Some start_exec_time)
        (with_request req
           (t <- env_now ;;
            print (LComplete t process) ;;
            r <- get_ready_queue ;;
            match r with
            | Deque l =>
                when (existsb (Nat.eqb process) l)
                  (modify (with_sched
                             (set_ready_queue (Deque (remove_first process l)))))
            | StoreRef _ => raise Dangling
            end ;;
            ret Return))
  | PPServeReq process req _, Throw e =>
      try_except process None (with_request req (raise e))
  | PPServeExec process req _ start_exec_time, Throw e =>
      try_except process (Some start_exec_time) (with_request req (raise e))
  | _, Throw e => raise e
  | _, Send _ => raise Dangling
  end.

End Preemptive_Priority_Scheduler.

(** *** Dynamic dispatch on the scheduler's class *)

Definition add_process (process : Pid) : M unit :=
  k <- gets (fun w => sched_class (sched w)) ;;
  match k with
  | FCFS => FCFS_Scheduler.add_process process
  | SJF => SJF_Scheduler.add_process process
  | RR => RR_Scheduler.add_process process
  | PreemptivePriority => Preemptive_Priority_Scheduler.add_process process
  end.

Definition handle_catastrophe : M unit :=
  k <- gets (fun w => sched_class (sched w)) ;;
  match k with
  | FCFS => FCFS_Scheduler.handle_catastrophe
  | SJF => SJF_Scheduler.handle_catastrophe
  | RR => RR_Scheduler.handle_catastrophe
  | PreemptivePriority => Preemptive_Priority_Scheduler.handle_catastrophe
  end.

(** *** process_generator *)

(** Lines 38-39: draw the gap to the next arrival and wait for it. *)
Definition next_arrival (pid_counter : nat) : M Yielded :=
  rate <- gets (fun w => LAMBDA (cfg w)) ;;
  interarrival_time <- simpy.expovariate rate ;;
  ev <- simpy.timeout interarrival_time ;;
  ret (Yield (GenArrival pid_counter) ev).

(** Lines 44-50: wait while the system is down, then hand the process to the scheduler. *)
Definition admission (pid_counter : nat) (burst_time : Q) : M Yielded :=
  op <- get_system_operational ;;
  if negb op then
    ev <- simpy.timeout (1 # 10) ;;
    ret (Yield (GenDown pid_counter burst_time) ev)
  else
    t <- env_now ;;
    new_process <- Process_init pid_counter t burst_time ;;
    p <- the_process new_process ;;
    print (LArrival t new_process burst_time (priority p)) ;;
    add_process new_process ;;
    next_arrival pid_counter.

Definition process_generator (c : Code) (r : Resumed) : M Yielded :=
  match c, r with
  | GenInit, Send _ => next_arrival 0
  | GenArrival pid_counter, Send _ =>
      let pid_counter := S pid_counter in
      rate <- gets (fun w => MU (cfg w)) ;;
      burst_time <- simpy.expovariate rate ;;
      admission pid_counter burst_time
  | GenDown pid_counter burst_time, Send _ => admission pid_counter burst_time
  | _, Throw e => raise e
  | _, Send _ => raise Dangling
  end.

(** *** fault_injector *)

(** Lines 58-59: draw the time to the next catastrophe and wait for it. *)
Definition next_failure : M Yielded :=
  rate <- gets (fun w => XI (cfg w)) ;;
  time_to_failure <- simpy.expovariate rate ;;
  ev <- simpy.timeout time_to_failure ;;
  ret (Yield FaultWait ev).

Definition fault_injector (c : Code) (r : Resumed) : M Yielded :=
  match c, r with
  | FaultInit, Send _ => next_failure
  | FaultWait, Send _ =>
      op <- get_system_operational ;;
      if op then
        modify (with_glob (set_system_operational false)) ;;
        catastrophe_time <- env_now ;;
        print (LCatastrophe catastrophe_time) ;;
        handle_catastrophe ;;
        rate <- gets (fun w => BETA (cfg w)) ;;
        repair_duration <- simpy.expovariate rate ;;
        ev <- simpy.timeout repair_duration ;;
        ret (Yield (FaultRepair repair_duration) ev)
      else next_failure
  | FaultRepair repair_duration, Send _ =>
      modify (with_glob (fun g =>
        set_total_downtime (total_downtime g + repair_duration) g)) ;;
      modify (with_glob (set_system_operational true)) ;;
      t <- env_now ;;
      modify (with_glob (set_last_restoration_time t)) ;;
      modify (with_sched (set_is_recovering true)) ;;
      print (LRestored t repair_duration) ;;
      next_failure
  | _, Throw e => raise e
  | _, Send _ => raise Dangling
  end.

(** ** The event loop *)

(** Which generator function a suspended generator belongs to. *)
Definition resume_code (c : Code) (r : Resumed) : M Yielded :=
  match c with
  | GenInit | GenArrival _ | GenDown _ _ => process_generator c r
  | FaultInit | FaultWait | FaultRepair _ => fault_injector c r
  | NPInit | NPDown | NPGet | NPServing _ => NonPreemptiveScheduler.run c r
  | NPServeInit _ | NPServeReq _ _ | NPServeExec _ _ =>
      NonPreemptiveScheduler.serve_process c r
  | RRInit | RRDown | RRIdle | RRServing _ => RR_Scheduler.run c r
  | RRServeInit _ | RRServeReq _ _ | RRServeExec _ _ _ =>
      RR_Scheduler.serve_process c r
  | PPInit | PPDown | PPTick => Preemptive_Priority_Scheduler.run c r
  | PPServeInit _ | PPServeReq _ _ _ | PPServeExec _ _ _ _ =>
      Preemptive_Priority_Scheduler.serve_process c r
  end.

Definition set_activity (a : ActId) (f : Activity -> Activity) : M unit :=
  modify (with_env (fun e =>
    set_activities (simpy.update_activity a f (activities e)) e)).

(** [Process._resume]: run the generator to its next [yield]; when it returns
    or raises, the process is over and its own event is scheduled. *)
Definition resume (a : ActId) (r : Resumed) : M unit :=
  x <- simpy.activity a ;;
  modify (with_env (set_active_process (Some a))) ;;
  o <- attempt (resume_code (code x) r) ;;
  match o with
  | Val (Yield c ev) =>
      set_activity a (fun y => {| act_id := act_id y; code := c;
                                  target := Some ev; triggered := None |})
  | Val Return =>
      set_activity a (fun y => {| act_id := act_id y; code := code y;
                                  target := None;
                                  triggered := Some None |}) ;;
      simpy.schedule false 0 (EProcess a) (PProcess a None)
  | Exc e =>
      set_activity a (fun y => {| act_id := act_id y; code := code y;
                                  target := None;
                                  triggered := Some (Some e) |}) ;;
      simpy.schedule false 0 (EProcess a) (PProcess a (Some e))
  end ;;
  modify (with_env (set_active_process None)).

(** The process whose [_resume] is among the callbacks of event [ev]. *)
Definition waiter (ev : EvId) (l : list Activity) : option ActId :=
  match find (fun x => match target x with
                       | Some t => evid_eqb t ev
                       | None => false
                       end) l with
  | Some x => Some (act_id x)
  | None => None
  end.

Definition deliver (ev : EvId) (r : Resumed) : M unit :=
  l <- gets (fun w => activities (env w)) ;;
  match waiter ev l with
  | Some a => resume a r
  | None => ret tt
  end.

Inductive Status := Running | Stopped.

(** [Environment.step]: pop the next event and run its callbacks. *)
Definition step : M Status :=
  q <- gets (fun w => queue (env w)) ;;
  match q with
  | [] => raise RuntimeError
  | e :: q' =>
      modify (with_env (fun v => set_now (q_time e) (set_queue q' v))) ;;
      match q_payload e with
      | PInitialize _ => deliver (q_ev e) (Send None) ;; ret Running
      | PTimeout => deliver (q_ev e) (Send None) ;; ret Running
      | PInterruption a cause =>
          t <- simpy.is_triggered a ;;
          (if t then ret tt
           else
             set_activity a (fun y => {| act_id := act_id y; code := code y;
                                         target := None;
                                         triggered := triggered y |}) ;;
             resume a (Throw (Interrupt cause))) ;;
          ret Running
      | PProcess a failed =>
          l <- gets (fun w => activities (env w)) ;;
          match waiter (q_ev e) l, failed with
          | Some b, None => resume b (Send None) ;; ret Running
          | Some b, Some exn => resume b (Throw exn) ;; ret Running
          | None, None => ret Running
          | None, Some exn => raise exn
          end
      | PStorePut s => simpy.trigger_get s ;; ret Running
      | PStoreGet i => deliver (q_ev e) (Send (Some i)) ;; ret Running
      | PRequest => deliver (q_ev e) (Send None) ;; ret Running
      | PRelease => simpy.trigger_put ;; ret Running
      | PUntil => ret Stopped
      end
  end.

(** The [while True: self.step()] of [Environment.run], for at most [fuel]
    events. *)
Fixpoint steps (fuel : nat) : M Status :=
  match fuel with
  | O => ret Running
  | S n => s <- step ;;
           match s with
           | Stopped => ret Stopped
           | Running => steps n
           end
  end.

(** [env.run(until=...)] *)
Definition env_run (until : Q) (fuel : nat) : M Status :=
  t <- env_now ;;
  if Qleb until t then raise ValueError
  else
    u <- simpy.fresh ;;
    simpy.schedule true (until - t) (EUntil u) PUntil ;;
    steps fuel.

(** ** The entry point *)

Definition initial_world (c : Config) (o : Oracle) (policy : Policy) : World :=
  {| cfg := c; rng := o;
     env := {| now := 0; queue := []; next_eid := 0; next_obj := 0;
               active_process := None; activities := [] |};
     glob := {| wait_times := []; recovery_times := []; total_downtime := 0;
                last_restoration_time := 0; system_operational := true |};
     sched := {| sched_class := policy; running_process_event := None;
                 is_recovering := false; active_processes := [];
                 ready_queue := Deque [];
                 cpu := {| preemptive :=
                             match policy with
                             | PreemptivePriority => true
                             | _ => false
                             end;
                           users := []; put_queue := [] |} |};
     stores := []; procs := []; draws := 0; log := [] |}.

(** The constructors: [Scheduler.__init__] starts the run loop, the subclass
    then creates its ready structure (the CPU resource and the empty deque are
    already in [initial_world]). *)
Definition Scheduler_init : M unit :=
  k <- gets (fun w => sched_class (sched w)) ;;
  _ <- simpy.process match k with
                     | FCFS | SJF => NPInit
                     | RR => RRInit
                     | PreemptivePriority => PPInit
                     end ;;
  match k with
  | FCFS => s <- simpy.new_store FifoStore ;;
            modify (with_sched (set_ready_queue (StoreRef s)))
  | SJF => s <- simpy.new_store PriorityStore ;;
           modify (with_sched (set_ready_queue (StoreRef s)))
  | RR | PreemptivePriority => ret tt
  end.

(** Lines 311-320: everything [__main__] does before [env.run]. *)
Definition setup : M unit :=
  Scheduler_init ;;
  _ <- simpy.process GenInit ;;
  _ <- simpy.process FaultInit ;;
  ret tt.

Record Report := {
  avg_wait_time : option Q;     (* [None] prints as N/A *)
  availability : Q;
  mttr : option Q
}.

(** Python's [/] on floats. *)
Definition py_div (a b : Q) : M Q :=
  if Qeqb b 0 then raise ZeroDivisionError else ret (a / b).

(** Line 335. *)
Definition compute_availability (sim_duration downtime : Q) : M Q :=
  r <- py_div (sim_duration - downtime) sim_duration ;;
  ret (r * 100).

(** Lines 324-343, the final metrics. *)
Definition results_analysis : M Report :=
  g <- gets glob ;;
  d <- gets (fun w => SIM_DURATION (cfg w)) ;;
  a <- compute_availability d (total_downtime g) ;;
  ret {| avg_wait_time := match wait_times g with
                          | [] => None
                          | l => Some (mean l)
                          end;
         availability := a;
         mttr := match recovery_times g with
                 | [] => None
                 | l => Some (mean l)
                 end |}.

(** The whole program; [None] when [fuel] events did not reach the horizon. *)
Definition main (fuel : nat) : M (option Report) :=
  setup ;;
  d <- gets (fun w => SIM_DURATION (cfg w)) ;;
  s <- env_run d fuel ;;
  match s with
  | Running => ret None
  | Stopped => r <- results_analysis ;; ret (Some r)
  end.

(** An oracle that reads its samples from lists. *)
Definition oracle_of (es : list Q) (zs : list Z) : Oracle :=
  {| exp_sample := fun k => nth k es 1; int_sample := fun k => nth k zs 0%Z |}.

(** * Verification *)

(** ** Relational reasoning about computations

    A relation between the world before and the world after, closed under
    sequencing, is established for a computation from its parts. *)

Section Sound.

Variable R : World -> World -> Prop.
Hypothesis R_refl : forall w, R w w.
Hypothesis R_trans : forall a b c, R a b -> R b c -> R a c.

Definition sound {A} (m : M A) : Prop := forall w, R w (fst (m w)).

Lemma sound_ret A (a : A) : sound (ret a).
Proof. intro w. apply R_refl. Qed.

Lemma sound_raise A (e : Exn) : sound (@raise A e).
Proof. intro w. apply R_refl. Qed.

Lemma sound_gets A (f : World -> A) : sound (gets f).
Proof. intro w. apply R_refl. Qed.

Lemma sound_modify (f : World -> World) :
  (forall w, R w (f w)) -> sound (modify f).
Proof. intros H w. apply H. Qed.

Lemma sound_bind A B (m : M A) (k : A -> M B) :
  sound m -> (forall a, sound (k a)) -> sound (bind m k).
Proof.
  intros Hm Hk w. unfold bind.
  specialize (Hm w). destruct (m w) as [w1 [a|e]]; simpl in *.
  - eapply R_trans; [exact Hm | apply Hk].
  - exact Hm.
Qed.

Lemma sound_catch A (m : M A) (h : Exn -> M A) :
  sound m -> (forall e, sound (h e)) -> sound (catch m h).
Proof.
  intros Hm Hh w. unfold catch.
  specialize (Hm w). destruct (m w) as [w1 [a|e]]; simpl in *.
  - exact Hm.
  - eapply R_trans; [exact Hm | apply Hh].
Qed.

Lemma sound_when (b : bool) (m : M unit) : sound m -> sound (when b m).
Proof. intros H. destruct b; simpl; [exact H | apply sound_ret]. Qed.

Lemma sound_attempt A (m : M A) : sound m -> sound (attempt m).
Proof. intros H w. apply H. Qed.

End Sound.

(** Decompose a goal [sound R m] along the structure of [m]; [leaf] closes the
    obligations on the primitive updates. *)
Ltac sound_step rf tr leaf :=
  match goal with
  | |- sound _ (ret _) => apply (@sound_ret _ rf)
  | |- sound _ (raise _) => apply (@sound_raise _ rf)
  | |- sound _ (gets _) => apply (@sound_gets _ rf)
  | |- sound _ (bind _ _) => apply (@sound_bind _ tr); [| intro; cbv beta]
  | |- sound _ (catch _ _) => apply (@sound_catch _ tr); [| intro; cbv beta]
  | |- sound _ (when _ _) => apply (@sound_when _ rf)
  | |- sound _ (attempt _) => apply sound_attempt
  | |- sound _ (modify _) => apply sound_modify; intro; leaf
  | |- sound _ (match ?x with _ => _ end) => destruct x
  | |- sound _ (if ?b then _ else _) => destruct b
  | |- sound _ (let _ := _ in _) => cbv zeta
  end.

(** ** Recovery windows against restorations *)

Definition is_restored (e : LogEntry) : bool :=
  match e with LRestored _ _ => true | _ => false end.

(** Completed catastrophe/restoration pairs: the "System RESTORED" lines. *)
Definition restorations (w : World) : nat :=
  length (filter is_restored (log w)).

(** Recovery-time samples recorded so far. *)
Definition samples (w : World) : nat := length (recovery_times (glob w)).

(** 1 while a recovery window is open, else 0. *)
Definition window_open (w : World) : nat :=
  Nat.b2n (is_recovering (sched w)).

(** From [w] to [w'], samples and the open window grew by no more than the
    number of restorations in between. *)
Definition within_restorations (w w' : World) : Prop :=
  (samples w' + window_open w' + restorations w
   <= samples w + window_open w + restorations w')%nat.

Lemma within_restorations_refl w : within_restorations w w.
Proof. unfold within_restorations. lia. Qed.

Lemma within_restorations_trans a b c :
  within_restorations a b -> within_restorations b c ->
  within_restorations a c.
Proof. unfold within_restorations. lia. Qed.

Ltac wr_leaf :=
  unfold within_restorations, samples, window_open, restorations;
  cbn;
  repeat rewrite ?filter_app, ?length_app;
  repeat match goal with
         | |- context [Nat.b2n ?b] => destruct b; cbn
         | |- context [is_restored ?e] => destruct (is_restored e); cbn
         end;
  lia.

Ltac wr_step :=
  sound_step within_restorations_refl within_restorations_trans wr_leaf.

Lemma idle_and_drained_spec w :
  fst (idle_and_drained w) = w /\
  (snd (idle_and_drained w) = Val true ->
   is_recovering (sched w) = true /\
   simpy.count (cpu (sched w)) = 0%nat /\
   snd (ready_is_empty w) = Val true).
Proof.
  unfold idle_and_drained, ready_is_empty, get_ready_queue, simpy.get_cpu,
    simpy.the_store, bind, gets, ret, raise.
  destruct (is_recovering (sched w)); cbn; [| split; [easy | discriminate]].
  destruct (simpy.count (cpu (sched w))) eqn:C; cbn;
    [| split; [easy | discriminate]].
  destruct (ready_queue (sched w)) as [s | l]; cbn.
  - destruct (nth_error (stores w) s); cbn; auto.
  - auto.
Qed.

Lemma close_recovery_window_within :
  sound within_restorations close_recovery_window.
Proof.
  intro w. unfold close_recovery_window.
  destruct (idle_and_drained_spec w) as [Hw Hb].
  unfold bind at 1. destruct (idle_and_drained w) as [w1 [b | e]];
    cbn [fst snd] in *; subst w1; [| wr_leaf].
  destruct b; [| wr_leaf].
  destruct (Hb eq_refl) as (Hr & _ & _).
  unfold within_restorations, samples, window_open, restorations.
  unfold env_now, bind, gets, when, modify, ret. cbn.
  destruct (Qltb _ _); cbn; rewrite ?length_app, Hr; cbn; lia.
Qed.

Create HintDb wr.

Ltac wr_go := repeat first [ solve [auto 1 with wr nocore] | wr_step ].

#[local] Hint Resolve close_recovery_window_within : wr.

Lemma wr_schedule u d ev p :
  sound within_restorations (simpy.schedule u d ev p).
Proof. unfold simpy.schedule. wr_go. Qed.
#[local] Hint Resolve wr_schedule : wr.

Lemma wr_fresh : sound within_restorations simpy.fresh.
Proof. unfold simpy.fresh. wr_go. Qed.
#[local] Hint Resolve wr_fresh : wr.

Lemma wr_timeout d : sound within_restorations (simpy.timeout d).
Proof. unfold simpy.timeout. wr_go. Qed.
#[local] Hint Resolve wr_timeout : wr.

Lemma wr_activity a : sound within_restorations (simpy.activity a).
Proof. unfold simpy.activity. wr_go. Qed.
#[local] Hint Resolve wr_activity : wr.

Lemma wr_process c : sound within_restorations (simpy.process c).
Proof. unfold simpy.process. wr_go. Qed.
#[local] Hint Resolve wr_process : wr.

Lemma wr_is_triggered a : sound within_restorations (simpy.is_triggered a).
Proof. unfold simpy.is_triggered. wr_go. Qed.
#[local] Hint Resolve wr_is_triggered : wr.

Lemma wr_interrupt a c : sound within_restorations (simpy.interrupt a c).
Proof. unfold simpy.interrupt. wr_go. Qed.
#[local] Hint Resolve wr_interrupt : wr.

Lemma wr_expovariate r : sound within_restorations (simpy.expovariate r).
Proof. unfold simpy.expovariate. wr_go. Qed.
#[local] Hint Resolve wr_expovariate : wr.

Lemma wr_randint : sound within_restorations simpy.randint_1_10.
Proof. unfold simpy.randint_1_10. wr_go. Qed.
#[local] Hint Resolve wr_randint : wr.

Lemma wr_do_put r : sound within_restorations (simpy.do_put r).
Proof.
  unfold simpy.do_put, simpy.get_cpu, simpy.set_users. wr_go.
Qed.
#[local] Hint Resolve wr_do_put : wr.

Lemma wr_trigger_put : sound within_restorations simpy.trigger_put.
Proof.
  unfold simpy.trigger_put, simpy.get_cpu, simpy.set_put_queue. wr_go.
Qed.
#[local] Hint Resolve wr_trigger_put : wr.

Lemma wr_request z : sound within_restorations (simpy.request z).
Proof.
  unfold simpy.request, simpy.get_cpu, simpy.set_put_queue. wr_go.
Qed.
#[local] Hint Resolve wr_request : wr.

Lemma wr_release r : sound within_restorations (simpy.release r).
Proof. unfold simpy.release, simpy.get_cpu, simpy.set_users. wr_go. Qed.
#[local] Hint Resolve wr_release : wr.

Lemma wr_request_exit r : sound within_restorations (simpy.request_exit r).
Proof.
  unfold simpy.request_exit, simpy.get_cpu, simpy.set_put_queue. wr_go.
Qed.
#[local] Hint Resolve wr_request_exit : wr.

Lemma wr_the_store s : sound within_restorations (simpy.the_store s).
Proof. unfold simpy.the_store. wr_go. Qed.
#[local] Hint Resolve wr_the_store : wr.

Lemma wr_set_store s st : sound within_restorations (simpy.set_store s st).
Proof. unfold simpy.set_store. wr_go. Qed.
#[local] Hint Resolve wr_set_store : wr.

Lemma wr_new_store k : sound within_restorations (simpy.new_store k).
Proof. unfold simpy.new_store. wr_go. Qed.
#[local] Hint Resolve wr_new_store : wr.

Lemma wr_put s i : sound within_restorations (simpy.put s i).
Proof. unfold simpy.put. wr_go. Qed.
#[local] Hint Resolve wr_put : wr.

Lemma wr_trigger_get s : sound within_restorations (simpy.trigger_get s).
Proof. unfold simpy.trigger_get. wr_go. Qed.
#[local] Hint Resolve wr_trigger_get : wr.

Lemma wr_get s : sound within_restorations (simpy.get s).
Proof. unfold simpy.get. wr_go. Qed.
#[local] Hint Resolve wr_get : wr.

Lemma wr_the_process p : sound within_restorations (the_process p).
Proof. unfold the_process. wr_go. Qed.
#[local] Hint Resolve wr_the_process : wr.

Lemma wr_print e : sound within_restorations (print e).
Proof. unfold print. wr_go. Qed.
#[local] Hint Resolve wr_print : wr.

Lemma wr_deque_append p : sound within_restorations (deque_append p).
Proof. unfold deque_append, get_ready_queue. wr_go. Qed.
#[local] Hint Resolve wr_deque_append : wr.

Lemma wr_Process_init p a b : sound within_restorations (Process_init p a b).
Proof. unfold Process_init. wr_go. Qed.
#[local] Hint Resolve wr_Process_init : wr.

Lemma wr_base_handle_catastrophe :
  sound within_restorations Scheduler.handle_catastrophe.
Proof. unfold Scheduler.handle_catastrophe. wr_go. Qed.
#[local] Hint Resolve wr_base_handle_catastrophe : wr.

Lemma wr_interrupt_all l :
  sound within_restorations (Preemptive_Priority_Scheduler.interrupt_all l).
Proof. induction l as [| [p a] l IH]; cbn; wr_go. Qed.
#[local] Hint Resolve wr_interrupt_all : wr.

Lemma wr_handle_catastrophe : sound within_restorations handle_catastrophe.
Proof.
  unfold handle_catastrophe, FCFS_Scheduler.handle_catastrophe,
    SJF_Scheduler.handle_catastrophe, RR_Scheduler.handle_catastrophe,
    Preemptive_Priority_Scheduler.handle_catastrophe.
  wr_go.
Qed.
#[local] Hint Resolve wr_handle_catastrophe : wr.

Lemma wr_add_process p : sound within_restorations (add_process p).
Proof.
  unfold add_process, FCFS_Scheduler.add_process, SJF_Scheduler.add_process,
    RR_Scheduler.add_process, Preemptive_Priority_Scheduler.add_process,
    get_ready_queue.
  wr_go.
Qed.
#[local] Hint Resolve wr_add_process : wr.

Lemma wr_NP_run c r :
  sound within_restorations (NonPreemptiveScheduler.run c r).
Proof.
  unfold NonPreemptiveScheduler.run, NonPreemptiveScheduler.run_loop,
    get_system_operational, get_ready_queue, env_now.
  wr_go.
Qed.

Lemma wr_NP_serve c r :
  sound within_restorations (NonPreemptiveScheduler.serve_process c r).
Proof.
  unfold NonPreemptiveScheduler.serve_process, with_request, env_now.
  wr_go.
Qed.

Lemma wr_RR_run c r : sound within_restorations (RR_Scheduler.run c r).
Proof.
  unfold RR_Scheduler.run, RR_Scheduler.run_loop,
    get_system_operational, get_ready_queue, env_now.
  wr_go.
Qed.

Lemma wr_RR_serve c r :
  sound within_restorations (RR_Scheduler.serve_process c r).
Proof.
  unfold RR_Scheduler.serve_process, with_request, env_now,
    assign_burst_time_remaining.
  wr_go.
Qed.

Lemma wr_PP_run c r :
  sound within_restorations (Preemptive_Priority_Scheduler.run c r).
Proof.
  unfold Preemptive_Priority_Scheduler.run,
    Preemptive_Priority_Scheduler.run_loop,
    get_system_operational, env_now.
  wr_go.
Qed.

Lemma wr_PP_serve c r :
  sound within_restorations (Preemptive_Priority_Scheduler.serve_process c r).
Proof.
  unfold Preemptive_Priority_Scheduler.serve_process,
    Preemptive_Priority_Scheduler.try_except,
    Preemptive_Priority_Scheduler.on_interrupt,
    with_request, env_now, assign_burst_time_remaining, get_ready_queue.
  wr_go.
Qed.

Lemma wr_process_generator c r :
  sound within_restorations (process_generator c r).
Proof.
  unfold process_generator, admission, next_arrival, get_system_operational,
    env_now.
  wr_go.
Qed.

(** The restoration opens the window and prints the line in one go. *)
Lemma wr_restoration t d (k : M Yielded) :
  sound within_restorations k ->
  sound within_restorations
    (modify (with_sched (set_is_recovering true)) ;;
     print (LRestored t d) ;; k).
Proof.
  intros Hk w. unfold bind, modify, print. cbn.
  eapply within_restorations_trans; [| apply Hk].
  wr_leaf.
Qed.

Lemma wr_fault_injector c r : sound within_restorations (fault_injector c r).
Proof.
  unfold fault_injector, next_failure, get_system_operational, env_now.
  repeat first [ apply wr_restoration
               | solve [auto 1 with wr nocore]
               | wr_step ].
Qed.

Lemma wr_resume_code c r : sound within_restorations (resume_code c r).
Proof.
  destruct c; cbn [resume_code];
    auto using wr_NP_run, wr_NP_serve, wr_RR_run, wr_RR_serve, wr_PP_run,
      wr_PP_serve, wr_process_generator, wr_fault_injector.
Qed.
#[local] Hint Resolve wr_resume_code : wr.

Lemma wr_resume a r : sound within_restorations (resume a r).
Proof. unfold resume, set_activity. wr_go. Qed.
#[local] Hint Resolve wr_resume : wr.

Lemma wr_step : sound within_restorations step.
Proof. unfold step, deliver, set_activity. wr_go. Qed.

Lemma wr_steps n : sound within_restorations (steps n).
Proof.
  induction n as [| n IH]; cbn [steps].
  - wr_go.
  - apply (@sound_bind _ within_restorations_trans); [apply wr_step |].
    intros []; [apply IH | wr_go].
Qed.

(** ** Which step records a recovery sample *)

(** The conjunction the run loops test before closing a recovery window, as a
    property of the state. *)
Definition drained (w : World) : Prop :=
  match ready_queue (sched w) with
  | Deque l => l = []
  | StoreRef s => exists st, nth_error (stores w) s = Some st /\ items st = []
  end.

Definition window_closable (w : World) : Prop :=
  system_operational (glob w) = true /\
  is_recovering (sched w) = true /\
  simpy.count (cpu (sched w)) = 0%nat /\
  drained w.

(** Nothing but the event loop's own bookkeeping changed. *)
Definition same_state (w w' : World) : Prop :=
  glob w' = glob w /\ sched w' = sched w /\ stores w' = stores w.

(** No sample was recorded and the clock stands still. *)
Definition keeps_samples (w w' : World) : Prop :=
  recovery_times (glob w') = recovery_times (glob w) /\
  now (env w') = now (env w).

(** No sample was recorded, or exactly one, from a closable window. *)
Definition guarded (w w' : World) : Prop :=
  recovery_times (glob w') = recovery_times (glob w) \/
  (window_closable w /\
   recovery_times (glob w')
   = recovery_times (glob w)
       ++ [now (env w') - last_restoration_time (glob w)]).

Lemma same_state_refl w : same_state w w.
Proof. repeat split. Qed.
Lemma same_state_trans a b c : same_state a b -> same_state b c -> same_state a c.
Proof. unfold same_state. intuition congruence. Qed.
Lemma keeps_samples_refl w : keeps_samples w w.
Proof. split; reflexivity. Qed.
Lemma keeps_samples_trans a b c :
  keeps_samples a b -> keeps_samples b c -> keeps_samples a c.
Proof. unfold keeps_samples. intuition congruence. Qed.

Ltac head_of t := match t with ?f _ => head_of f | _ => t end.

(** Unfold the function a [sound] goal is about. *)
Ltac sound_unfold :=
  match goal with
  | |- sound _ ?m => let h := head_of m in unfold h
  end.

Ltac ss_leaf := solve [repeat split].
Ltac ss_go :=
  repeat first [ sound_step same_state_refl same_state_trans ss_leaf
               | sound_unfold ].

Ltac ks_leaf := solve [split; reflexivity].
Ltac ks_go :=
  repeat first
    [ match goal with
      | |- sound _ (Preemptive_Priority_Scheduler.interrupt_all ?l) =>
          induction l as [| [? ?] ? ?]; cbn [Preemptive_Priority_Scheduler.interrupt_all]
      | H : sound ?R ?m |- sound ?R ?m => exact H
      end
    | sound_step keeps_samples_refl keeps_samples_trans ks_leaf
    | sound_unfold ].

Lemma ks_handle_catastrophe : sound keeps_samples handle_catastrophe.
Proof. ks_go. Qed.

Lemma ks_process_generator c r : sound keeps_samples (process_generator c r).
Proof. ks_go. Qed.

Lemma ready_is_empty_drained w :
  snd (ready_is_empty w) = Val true -> drained w.
Proof.
  unfold ready_is_empty, get_ready_queue, simpy.the_store, drained,
    bind, gets, ret, raise.
  destruct (ready_queue (sched w)) as [s | l]; cbn.
  - destruct (nth_error (stores w) s) as [st |]; cbn; [| discriminate].
    intros H. exists st. split; [reflexivity |].
    injection H as H. apply Nat.eqb_eq in H.
    now apply length_zero_iff_nil.
  - destruct l; [reflexivity | discriminate].
Qed.

Lemma bind_run A B (m : M A) (k : A -> M B) w :
  bind m k w = match m w with
               | (w', Val a) => k a w'
               | (w', Exc e) => (w', Exc e)
               end.
Proof. reflexivity. Qed.

(** What [close_recovery_window] does to the samples. *)
Lemma close_recovery_window_spec w :
  let w1 := fst (close_recovery_window w) in
  now (env w1) = now (env w) /\
  (recovery_times (glob w1) = recovery_times (glob w) \/
   (is_recovering (sched w) = true /\
    simpy.count (cpu (sched w)) = 0%nat /\
    drained w /\
    recovery_times (glob w1)
    = recovery_times (glob w)
        ++ [now (env w) - last_restoration_time (glob w)])).
Proof.
  cbv zeta. unfold close_recovery_window. rewrite bind_run.
  destruct (idle_and_drained_spec w) as [Hw Hb].
  destruct (idle_and_drained w) as [w1 [b | e]];
    cbn [fst snd] in *; subst w1; [| auto].
  destruct b; [| cbn; auto].
  destruct (Hb eq_refl) as (Hr & Hc & Hd).
  apply ready_is_empty_drained in Hd.
  unfold env_now, bind, gets, when, modify, ret. cbn.
  destruct (Qltb _ _); cbn; auto 10.
Qed.

Lemma gs_of_keeps A (m : M A) : sound keeps_samples m -> sound guarded m.
Proof. intros H w. left. apply H. Qed.

Lemma gs_bind_same A B (m : M A) (k : A -> M B) :
  sound same_state m -> (forall a, sound guarded (k a)) ->
  sound guarded (bind m k).
Proof.
  intros Hm Hk w. unfold bind. specialize (Hm w).
  destruct (m w) as [w1 [a | e]]; cbn [fst] in *.
  - destruct Hm as (Hg & Hs & Ht).
    destruct (Hk a w1) as [H | [(Ho & Hr & Hc & Hd) H]].
    + left. now rewrite H, Hg.
    + right. unfold window_closable, drained in *.
      rewrite Hg, Hs, Ht in *. auto.
  - left. destruct Hm as (Hg & _). now rewrite Hg.
Qed.

Lemma gs_bind_keeps A B (m : M A) (k : A -> M B) :
  sound guarded m -> (forall a, sound keeps_samples (k a)) ->
  sound guarded (bind m k).
Proof.
  intros Hm Hk w. unfold bind. specialize (Hm w).
  destruct (m w) as [w1 [a | e]]; cbn [fst] in *; [| exact Hm].
  destruct (Hk a w1) as [H1 H2].
  destruct Hm as [H | [Hg H]].
  - left. congruence.
  - right. split; [exact Hg |]. congruence.
Qed.

(** The common head of the three run loops. *)
Lemma gs_run_loop (A B : M Yielded) :
  sound keeps_samples A -> sound keeps_samples B ->
  sound guarded
    (op <- get_system_operational ;;
     if negb op then A else close_recovery_window ;; B).
Proof.
  intros HA HB w. rewrite bind_run. unfold get_system_operational, gets.
  destruct (system_operational (glob w)) eqn:Hop; cbn [negb].
  - rewrite bind_run.
    destruct (close_recovery_window_spec w) as [Hn H].
    destruct (close_recovery_window w) as [w1 [[] | e]]; cbn [fst] in *.
    + destruct (HB w1) as [K1 K2].
      destruct H as [H | (Hr & Hc & Hd & H)].
      * left. congruence.
      * right. split; [repeat split; assumption |].
        now rewrite K1, K2, Hn, H.
    + destruct H as [H | (Hr & Hc & Hd & H)].
      * left. exact H.
      * right. split; [repeat split; assumption |].
        now rewrite Hn, H.
  - left. apply HA.
Qed.

Lemma ks_resume_code c r :
  match c with
  | NPInit | NPDown | NPGet | NPServing _
  | RRInit | RRDown | RRIdle | RRServing _
  | PPInit | PPDown | PPTick => True
  | _ => sound keeps_samples (resume_code c r)
  end.
Proof. destruct c; try exact I; cbn [resume_code]; ks_go. Qed.

Ltac gs_go :=
  repeat first
    [ apply gs_run_loop; [solve [ks_go] | solve [ks_go]]
    | apply gs_bind_same; [solve [ss_go] | intro; cbv beta]
    | apply gs_bind_keeps; [| intro; cbv beta; solve [ks_go]]
    | match goal with
      | |- sound _ (match ?x with _ => _ end) => destruct x
      | |- sound _ (if ?b then _ else _) => destruct b
      | |- sound _ (attempt _) => apply sound_attempt
      | |- sound _ (ret _) => apply gs_of_keeps; solve [ks_go]
      | |- sound _ (raise _) => apply gs_of_keeps; solve [ks_go]
      | |- sound _ (modify _) => apply gs_of_keeps; solve [ks_go]
      end
    | sound_unfold ].

Lemma gs_resume_code c r : sound guarded (resume_code c r).
Proof.
  destruct c;
    try (apply gs_of_keeps;
         first [ exact (ks_resume_code GenInit r)
               | exact (ks_resume_code (GenArrival _) r)
               | exact (ks_resume_code (GenDown _ _) r)
               | exact (ks_resume_code FaultInit r)
               | exact (ks_resume_code FaultWait r)
               | exact (ks_resume_code (FaultRepair _) r)
               | exact (ks_resume_code (NPServeInit _) r)
               | exact (ks_resume_code (NPServeReq _ _) r)
               | exact (ks_resume_code (NPServeExec _ _) r)
               | exact (ks_resume_code (RRServeInit _) r)
               | exact (ks_resume_code (RRServeReq _ _) r)
               | exact (ks_resume_code (RRServeExec _ _ _) r)
               | exact (ks_resume_code (PPServeInit _) r)
               | exact (ks_resume_code (PPServeReq _ _ _) r)
               | exact (ks_resume_code (PPServeExec _ _ _ _) r) ]).
  all: cbn [resume_code]; gs_go.
Qed.

Lemma gs_resume a r : sound guarded (resume a r).
Proof.
  unfold resume.
  apply gs_bind_same; [solve [ss_go] | intro; cbv beta].
  apply gs_bind_same; [solve [ss_go] | intro; cbv beta].
  apply gs_bind_keeps; [apply sound_attempt, gs_resume_code |].
  intro; cbv beta; ks_go.
Qed.

Lemma gs_step : sound guarded step.
Proof.
  unfold step, deliver.
  repeat first
    [ apply gs_resume
    | match goal with
      | |- sound _ (simpy.trigger_get _ ;; _) => apply gs_of_keeps; solve [ks_go]
      | |- sound _ (simpy.trigger_put ;; _) => apply gs_of_keeps; solve [ks_go]
      end
    | apply gs_bind_same; [solve [ss_go] | intro; cbv beta]
    | apply gs_bind_keeps; [| intro; cbv beta; solve [ks_go]]
    | match goal with
      | |- sound _ (match ?x with _ => _ end) => destruct x
      | |- sound _ (if ?b then _ else _) => destruct b
      | |- sound _ (ret _) => apply gs_of_keeps; solve [ks_go]
      | |- sound _ (raise _) => apply gs_of_keeps; solve [ks_go]
      | |- sound _ (simpy.trigger_get _ ;; _) => apply gs_of_keeps; solve [ks_go]
      | |- sound _ (simpy.trigger_put ;; _) => apply gs_of_keeps; solve [ks_go]
      end ].
Qed.

Lemma wr_main n : sound within_restorations (main n).
Proof.
  unfold main, setup, Scheduler_init, env_run, results_analysis,
    compute_availability, py_div, env_now.
  repeat first [ apply wr_steps | solve [auto 1 with wr nocore] | wr_step ].
Qed.

(** C6.  At most one recovery-time sample per catastrophe/restoration pair:
    over any stretch of the run, the samples recorded plus the window still
    open grow by no more than the restorations in that stretch, so that a
    whole run records no more samples than it completed restorations, and a
    stretch that starts with no window open and sees no restoration (a
    catastrophe whose repair does not end before the horizon) records none.
    A step records a sample only from a state where the system is up, the
    window is open (a restoration came before), the CPU is idle and the ready
    structure is empty, and what it records is the time since the
    restoration. *)
Theorem recovery_samples_per_restoration :
  (forall w n,
     let w' := fst (steps n w) in
     (samples w' + window_open w' + restorations w
      <= samples w + window_open w + restorations w')%nat) /\
  (forall c o p n,
     let w' := fst (main n (initial_world c o p)) in
     (samples w' + window_open w' <= restorations w')%nat) /\
  (forall w n,
     let w' := fst (steps n w) in
     is_recovering (sched w) = false ->
     restorations w' = restorations w ->
     (samples w' <= samples w)%nat) /\
  (forall w,
     let w' := fst (step w) in
     recovery_times (glob w') = recovery_times (glob w) \/
     (window_closable w /\
      recovery_times (glob w')
      = recovery_times (glob w)
          ++ [now (env w') - last_restoration_time (glob w)])).
Proof.
  repeat split.
  - intros w n. apply wr_steps.
  - intros c o p n. cbv zeta.
    pose proof (wr_main n (initial_world c o p)) as H.
    unfold within_restorations in H. cbn in H. lia.
  - intros w n w' Hr Hn. subst w'.
    pose proof (wr_steps n w) as H. unfold within_restorations in H.
    unfold window_open in H. rewrite Hr in H. cbn in H. lia.
  - intros w. apply gs_step.
Qed.

(** ** Closing a recovery window *)

(** The run loop a scheduler of each class executes. *)
Definition run_loop (k : Policy) : M Yielded :=
  match k with
  | FCFS | SJF => NonPreemptiveScheduler.run_loop
  | RR => RR_Scheduler.run_loop
  | PreemptivePriority => Preemptive_Priority_Scheduler.run_loop
  end.

(** Neither the samples nor the recovery flag changed. *)
Definition keeps_window (w w' : World) : Prop :=
  recovery_times (glob w') = recovery_times (glob w) /\
  is_recovering (sched w') = is_recovering (sched w).

Lemma keeps_window_refl w : keeps_window w w.
Proof. split; reflexivity. Qed.
Lemma keeps_window_trans a b c :
  keeps_window a b -> keeps_window b c -> keeps_window a c.
Proof. unfold keeps_window. intuition congruence. Qed.

Ltac kw_leaf := solve [split; reflexivity].
Ltac kw_go :=
  repeat first
    [ sound_step keeps_window_refl keeps_window_trans kw_leaf
    | sound_unfold ].

Lemma drained_ready_is_empty w :
  drained w -> ready_is_empty w = (w, Val true).
Proof.
  unfold drained, ready_is_empty, get_ready_queue, simpy.the_store,
    bind, gets, ret.
  destruct (ready_queue (sched w)) as [s | l].
  - intros (st & H1 & H2). rewrite H1, H2. reflexivity.
  - intros ->. reflexivity.
Qed.

Lemma idle_and_drained_true w :
  is_recovering (sched w) = true ->
  simpy.count (cpu (sched w)) = 0%nat ->
  drained w ->
  idle_and_drained w = (w, Val true).
Proof.
  intros Hr Hc Hd.
  cbv beta iota delta [idle_and_drained simpy.get_cpu bind gets ret].
  rewrite Hr. cbv beta iota delta [negb]. rewrite Hc.
  cbv beta iota delta [negb Nat.eqb].
  now apply drained_ready_is_empty.
Qed.

Lemma close_recovery_window_closes w :
  is_recovering (sched w) = true ->
  simpy.count (cpu (sched w)) = 0%nat ->
  drained w ->
  let w1 := fst (close_recovery_window w) in
  is_recovering (sched w1) = false /\
  recovery_times (glob w1)
  = if Qltb (1 # 1000000) (now (env w) - last_restoration_time (glob w))
    then recovery_times (glob w)
           ++ [now (env w) - last_restoration_time (glob w)]
    else recovery_times (glob w).
Proof.
  intros Hr Hc Hd. cbv zeta.
  unfold close_recovery_window. rewrite bind_run.
  rewrite idle_and_drained_true by assumption.
  unfold env_now, bind, gets, when, modify, ret.
  destruct (Qltb _ _); cbn; auto.
Qed.

(** C10.  In every run loop, a pass that finds the system up, the recovery flag
    set, the CPU idle and the ready structure empty clears the flag, and
    records [now - last_restoration_time] exactly when that length exceeds
    1e-6: a window of length at most 1e-6 leaves no sample. *)
Theorem recovery_window_threshold (k : Policy) (w : World) :
  window_closable w ->
  let elapsed := now (env w) - last_restoration_time (glob w) in
  let w' := fst (run_loop k w) in
  is_recovering (sched w') = false /\
  (1 # 1000000 < elapsed ->
   recovery_times (glob w') = recovery_times (glob w) ++ [elapsed]) /\
  (elapsed <= 1 # 1000000 ->
   recovery_times (glob w') = recovery_times (glob w)).
Proof.
  intros (Hop & Hr & Hc & Hd). cbv zeta.
  destruct (@close_recovery_window_closes w Hr Hc Hd) as [H1 H2].
  assert (K : forall down rest : M Yielded,
             sound keeps_window rest ->
             keeps_window (fst (close_recovery_window w))
               (fst ((op <- get_system_operational ;;
                      if negb op then down
                      else close_recovery_window ;; rest) w))).
  { intros down rest Hrest. rewrite bind_run. unfold get_system_operational, gets.
    rewrite Hop. cbn [negb]. rewrite bind_run.
    destruct (close_recovery_window w) as [w1 [[] | e]]; cbn [fst].
    - apply Hrest.
    - apply keeps_window_refl. }
  assert (G : keeps_window (fst (close_recovery_window w)) (fst (run_loop k w))).
  { destruct k; cbn [run_loop].
    all: apply K; kw_go. }
  destruct G as [G1 G2]. rewrite G1, G2, H1, H2.
  split; [reflexivity | split; intros Hl].
  - apply Qltb_lt in Hl. now rewrite Hl.
  - apply Qltb_ge in Hl. now rewrite Hl.
Qed.

(** A Round-Robin scheduler five time units after a restoration at time 0,
    idle and with an empty deque. *)
Definition closing_world : World :=
  with_env (set_now 5)
    (with_sched (set_is_recovering true)
       (initial_world default_config (oracle_of [] []) RR)).

Lemma recovery_window_threshold_witness :
  window_closable closing_world /\
  recovery_times (glob (fst (run_loop RR closing_world))) = [5 - 0].
Proof.
  assert (H : window_closable closing_world) by (repeat split).
  split; [exact H |].
  apply (recovery_window_threshold RR H). reflexivity.
Defined.

(** ** Round-Robin: the slices of one process *)




Lemma find_process_assign p r l pr :
  find_process p l = Some pr ->
  find_process p
    (map (fun x => if (pid x =? p)%nat then set_burst_time_remaining r x else x) l)
  = Some (set_burst_time_remaining r pr).
Proof.
  induction l as [| x l IH]; cbn; [discriminate |].
  destruct (pid x =? p)%nat eqn:E; cbn; rewrite E.
  - now intros [= ->].
  - exact IH.
Qed.




(** The printed lines without their numbers. *)
Inductive Tag :=
| TArrival (p : Pid)
| TCatastrophe
| TQueueLost
| TRestored
| TInterrupt (p : Pid)
| TExecute (p : Pid)
| TComplete (p : Pid)
| TResume (p : Pid)
| TPreempt (p : Pid)
| TPreemptPriority (p : Pid).

Arguments TArrival p%_nat.
Arguments TInterrupt p%_nat.
Arguments TExecute p%_nat.
Arguments TComplete p%_nat.
Arguments TResume p%_nat.
Arguments TPreempt p%_nat.
Arguments TPreemptPriority p%_nat.

Definition tag (e : LogEntry) : Tag :=
  match e with
  | LArrival _ p _ _ => TArrival p
  | LCatastrophe _ => TCatastrophe
  | LQueueLost => TQueueLost
  | LRestored _ _ => TRestored
  | LInterrupt _ p => TInterrupt p
  | LExecute _ p _ => TExecute p
  | LComplete _ p => TComplete p
  | LResume _ p => TResume p
  | LPreempt _ p _ => TPreempt p
  | LPreemptPriority _ p _ => TPreemptPriority p
  end.

Definition tags (w : World) : list Tag := map tag (log w).





















(** ** Preemptive priority: the displaced holder *)

Lemma remove_request_fresh r l :
  Forall (fun x => (req_ev x < req_ev r)%nat) l -> simpy.remove_request r l = l.
Proof.
  unfold simpy.remove_request, simpy.same_request.
  induction 1 as [| x l H _ IH]; cbn; [reflexivity |].
  destruct (req_ev x =? req_ev r)%nat eqn:E; cbn.
  - apply Nat.eqb_eq in E. lia.
  - now rewrite IH.
Qed.

Lemma insert_sorted_head r l :
  Forall (fun x => (req_priority r < req_priority x)%Z) l ->
  simpy.insert_sorted r l = r :: l.
Proof.
  destruct 1 as [| x l H _]; cbn; [reflexivity |].
  unfold simpy.key_lt. apply Z.ltb_lt in H. now rewrite H.
Qed.

Lemma remove_request_cons r l :
  simpy.remove_request r (r :: l) = simpy.remove_request r l.
Proof.
  unfold simpy.remove_request, simpy.same_request. cbn.
  now rewrite Nat.eqb_refl.
Qed.

Lemma remove_request_nil r : simpy.remove_request r [] = [].
Proof. reflexivity. Qed.

Ltac pp_eval :=
  cbv -[Qltb Qeqb Qleb py_min find_process simpy.find_activity
        Qplus Qminus Qmult Qdiv simpy.insert_entry Nat.eqb
        simpy.remove_request simpy.insert_sorted Z.ltb Z.eqb
        Preemptive_Priority_Scheduler.dict_has
        Preemptive_Priority_Scheduler.dict_del
        Preemptive_Priority_Scheduler.dict_set].

Lemma pp_request_preempts w n pn p_new rh hx :
  active_process (env w) = Some n ->
  find_process pn (procs w) = Some p_new ->
  preemptive (cpu (sched w)) = true ->
  users (cpu (sched w)) = [rh] ->
  Forall (fun x => (req_priority rh <= req_priority x)%Z)
         (put_queue (cpu (sched w))) ->
  Forall (fun x => (req_ev x < next_obj (env w))%nat)
         (rh :: put_queue (cpu (sched w))) ->
  (priority p_new < req_priority rh)%Z ->
  simpy.find_activity (req_proc rh) (activities (env w)) = Some hx ->
  triggered hx = None ->
  req_proc rh <> n ->
  let rn := {| req_ev := next_obj (env w); req_proc := n;
               req_priority := priority p_new; req_time := now (env w) |} in
  let w' := fst (Preemptive_Priority_Scheduler.serve_process
                   (PPServeInit pn) (Send None) w) in
  snd (Preemptive_Priority_Scheduler.serve_process
         (PPServeInit pn) (Send None) w)
  = Val (Yield (PPServeReq pn rn (now (env w))) (ERequest (req_ev rn))) /\
  users (cpu (sched w')) = [rn] /\
  put_queue (cpu (sched w')) = put_queue (cpu (sched w)) /\
  queue (env w')
  = simpy.insert_entry
      {| q_time := now (env w) + 0; q_urgent := false;
         q_seq := S (next_eid (env w)); q_ev := ERequest (req_ev rn);
         q_payload := PRequest |}
      (simpy.insert_entry
         {| q_time := now (env w) + 0; q_urgent := true;
            q_seq := next_eid (env w);
            q_ev := EInterruption (S (next_obj (env w)));
            q_payload := PInterruption (req_proc rh) Preempted |}
         (queue (env w))).
Proof.
  intros Ha Hf Hp Hu Hw Hfresh Hprio Hact Halive Hne.
  destruct w as [c rg e g s st ps dr lg].
  destruct e as [nw qu ne no ap acts].
  destruct s as [k rpe rec d rq cp]. destruct cp as [pre us pq].
  destruct p_new as [pid0 arr init rem prio].
  destruct rh as [hev hproc hprio htime].
  destruct hx as [hid hcode htarget htrig].
  cbn in Ha, Hf, Hp, Hu, Hw, Hfresh, Hprio, Hact, Halive, Hne.
  subst ap us pre htrig.
  cbv zeta.
  assert (Hw' : Forall (fun x => (prio < req_priority x)%Z) pq).
  { eapply Forall_impl; [| exact Hw]. cbn. intros; lia. }
  assert (Hfresh' : Forall (fun x => (req_ev x < no)%nat) pq)
    by now inversion Hfresh.
  assert (L : (prio <? hprio)%Z = true) by now apply Z.ltb_lt.
  assert (N : (n =? hproc)%nat = false) by (apply Nat.eqb_neq; congruence).
  pp_eval. rewrite Hf. pp_eval.
  rewrite (@insert_sorted_head
             {| req_ev := no; req_proc := n; req_priority := prio;
                req_time := nw |} pq Hw').
  pp_eval. rewrite L. pp_eval.
  rewrite remove_request_cons, remove_request_nil. pp_eval.
  rewrite Hact. pp_eval. rewrite N. pp_eval.
  rewrite ?Nat.eqb_refl. pp_eval.
  rewrite remove_request_cons.
  rewrite (@remove_request_fresh
             {| req_ev := no; req_proc := n; req_priority := prio;
                req_time := nw |} pq Hfresh').
  pp_eval. repeat split.
Qed.

Lemma pp_preempted w ph p_h rh sw se l :
  find_process ph (procs w) = Some p_h ->
  ready_queue (sched w) = Deque l ->
  let t := now (env w) in
  let rem := burst_time_remaining p_h - (t - se) in
  let w' := fst (Preemptive_Priority_Scheduler.serve_process
                   (PPServeExec ph rh sw se) (Throw (Interrupt Preempted)) w) in
  snd (Preemptive_Priority_Scheduler.serve_process
         (PPServeExec ph rh sw se) (Throw (Interrupt Preempted)) w)
  = Val Return /\
  find_process ph (procs w') = Some (set_burst_time_remaining rem p_h) /\
  ready_queue (sched w') = Deque l /\
  put_queue (cpu (sched w'))
  = simpy.remove_request rh (put_queue (cpu (sched w))) /\
  users (cpu (sched w')) = simpy.remove_request rh (users (cpu (sched w))) /\
  activities (env w') = activities (env w) /\
  wait_times (glob w') = wait_times (glob w) /\
  log w' = log w ++ [LPreemptPriority t ph rem].
Proof.
  intros Hf Hl.
  destruct w as [c rg e g s st ps dr lg].
  destruct e as [nw qu ne no ap acts].
  destruct s as [k rpe rec d rq cp]. destruct cp as [pre us pq].
  destruct p_h as [pid0 arr init rem prio].
  cbn in Hf, Hl. subst rq.
  cbv zeta.
  pp_eval.
  destruct (Preemptive_Priority_Scheduler.dict_has ph d);
    pp_eval; rewrite Hf; pp_eval.
  all: repeat split.
  all: exact (@find_process_assign ph (rem - (nw - se)) ps _ Hf).
Qed.

Lemma insert_entry_in e q x :
  In x (simpy.insert_entry e q) <-> x = e \/ In x q.
Proof.
  induction q as [| y q IH]; cbn.
  - intuition congruence.
  - destruct (simpy.entry_before e y); cbn; [intuition congruence |].
    rewrite IH. intuition congruence.
Qed.

(** C3.  Under the preemptive-priority policy: when the service activity of a
    process starts and requests the CPU while it is held at a numerically
    larger priority (the waiting requests being no better than the holder's),
    an urgent interruption with cause [Preempted] is scheduled for the holder
    and the new request becomes the user of the CPU, its grant being
    scheduled.  When that interruption reaches the holder in the middle of its
    run, its remaining demand decreases by exactly [now - start_exec_time], the
    preemption is logged and the generator returns: no activity is created, no
    request is left or added for the process, and the deque is as it was. *)
Theorem preemption_displaces_holder :
  (forall w n pn p_new rh hx,
     active_process (env w) = Some n ->
     find_process pn (procs w) = Some p_new ->
     preemptive (cpu (sched w)) = true ->
     users (cpu (sched w)) = [rh] ->
     Forall (fun x => (req_priority rh <= req_priority x)%Z)
            (put_queue (cpu (sched w))) ->
     Forall (fun x => (req_ev x < next_obj (env w))%nat)
            (rh :: put_queue (cpu (sched w))) ->
     (priority p_new < req_priority rh)%Z ->
     simpy.find_activity (req_proc rh) (activities (env w)) = Some hx ->
     triggered hx = None ->
     req_proc rh <> n ->
     let rn := {| req_ev := next_obj (env w); req_proc := n;
                  req_priority := priority p_new; req_time := now (env w) |} in
     let r := Preemptive_Priority_Scheduler.serve_process
                (PPServeInit pn) (Send None) w in
     snd r = Val (Yield (PPServeReq pn rn (now (env w)))
                        (ERequest (req_ev rn))) /\
     users (cpu (sched (fst r))) = [rn] /\
     put_queue (cpu (sched (fst r))) = put_queue (cpu (sched w)) /\
     (exists e, In e (queue (env (fst r))) /\
                q_payload e = PInterruption (req_proc rh) Preempted /\
                q_urgent e = true /\ q_time e == now (env w)) /\
     (exists e, In e (queue (env (fst r))) /\
                q_ev e = ERequest (req_ev rn) /\ q_payload e = PRequest /\
                q_time e == now (env w))) /\
  (forall w ph p_h rh sw start_exec_time l,
     find_process ph (procs w) = Some p_h ->
     ready_queue (sched w) = Deque l ->
     let time_spent_executing := now (env w) - start_exec_time in
     let remaining := burst_time_remaining p_h - time_spent_executing in
     let r := Preemptive_Priority_Scheduler.serve_process
                (PPServeExec ph rh sw start_exec_time)
                (Throw (Interrupt Preempted)) w in
     snd r = Val Return /\
     find_process ph (procs (fst r))
     = Some (set_burst_time_remaining remaining p_h) /\
     log (fst r) = log w ++ [LPreemptPriority (now (env w)) ph remaining] /\
     ready_queue (sched (fst r)) = Deque l /\
     activities (env (fst r)) = activities (env w) /\
     put_queue (cpu (sched (fst r)))
     = simpy.remove_request rh (put_queue (cpu (sched w))) /\
     users (cpu (sched (fst r)))
     = simpy.remove_request rh (users (cpu (sched w))) /\
     wait_times (glob (fst r)) = wait_times (glob w)).
Proof.
  split.
  - intros w n pn p_new rh hx Ha Hf Hp Hu Hw Hfresh Hprio Hact Halive Hne.
    cbv zeta.
    destruct (@pp_request_preempts w n pn p_new rh hx Ha Hf Hp Hu Hw Hfresh
                Hprio Hact Halive Hne) as (R1 & R2 & R3 & R4).
    repeat split; try assumption.
    + eexists. rewrite R4, !insert_entry_in.
      split; [right; left; reflexivity |]. cbn. repeat split. lra.
    + eexists. rewrite R4, !insert_entry_in.
      split; [left; reflexivity |]. cbn. repeat split. lra.
  - intros w ph p_h rh sw se l Hf Hl. cbv zeta.
    destruct (@pp_preempted w ph p_h rh sw se l Hf Hl)
      as (R1 & R2 & R3 & R4 & R5 & R6 & R7 & R8).
    repeat split; assumption.
Qed.

(** A run in which process 1 (priority 5, demand 10) arrives at time 1 and
    process 2 (priority 1, demand 1) at time 2. *)
Definition preemption_config : Config :=
  {| LAMBDA := 1; MU := 1; XI := 1; BETA := 1; RR_QUANTUM := 3 # 10;
     SIM_DURATION := 30 |}.

Definition preemption_oracle : Oracle :=
  oracle_of [1; 100; 10; 0; 1; 1; 0; 100] [0; 0; 0; 4; 0; 0; 0]%Z.

Definition preemption_start : World :=
  fst ((setup ;; env_run 30 0)
         (initial_world preemption_config preemption_oracle
            PreemptivePriority)).

(** After 26 events the service activity of process 2 (activity 34) is about
    to start, while activity 19 runs process 1 on the CPU since time 1. *)
Definition before_request : World :=
  with_env (set_active_process (Some 34%nat)) (fst (steps 26 preemption_start)).

Definition holder_request : Request :=
  {| req_ev := 22; req_proc := 19%nat; req_priority := 5; req_time := 1 |}.

Lemma preemption_displaces_holder_witness :
  let r := Preemptive_Priority_Scheduler.serve_process
             (PPServeInit 2%nat) (Send None) before_request in
  let r' := Preemptive_Priority_Scheduler.serve_process
              (PPServeExec 1%nat holder_request 1 1)
              (Throw (Interrupt Preempted)) (fst r) in
  users (cpu (sched before_request)) = [holder_request] /\
  map req_proc (users (cpu (sched (fst r)))) = [34%nat] /\
  (exists e, In e (queue (env (fst r))) /\
             q_payload e = PInterruption 19%nat Preempted /\
             q_urgent e = true /\ q_time e == 2) /\
  snd r' = Val Return /\
  option_map burst_time_remaining (find_process 1%nat (procs (fst r')))
  = Some (10 - (2 - 1)).
Proof.
  cbv zeta.
  set (p2 := {| pid := 2%nat; arrival_time := 2; burst_time_initial := 1;
                burst_time_remaining := 1; priority := 1%Z |}).
  set (p1 := {| pid := 1%nat; arrival_time := 1; burst_time_initial := 10;
                burst_time_remaining := 10; priority := 5%Z |}).
  set (hx := {| act_id := 19%nat;
                code := PPServeExec 1%nat holder_request 1 1;
                target := Some (ETimeout 24); triggered := None |}).
  assert (H1 : active_process (env before_request) = Some 34%nat)
    by reflexivity.
  assert (H2 : find_process 2%nat (procs before_request) = Some p2)
    by (vm_compute; reflexivity).
  assert (H3 : preemptive (cpu (sched before_request)) = true)
    by (vm_compute; reflexivity).
  assert (H4 : users (cpu (sched before_request)) = [holder_request])
    by (vm_compute; reflexivity).
  assert (H5 : put_queue (cpu (sched before_request)) = [])
    by (vm_compute; reflexivity).
  assert (H6 : next_obj (env before_request) = 37%nat)
    by (vm_compute; reflexivity).
  assert (H7 : simpy.find_activity 19%nat (activities (env before_request))
               = Some hx) by (vm_compute; reflexivity).
  assert (H8 : now (env before_request) = 2) by (vm_compute; reflexivity).
  destruct (proj1 preemption_displaces_holder before_request 34%nat 2%nat p2
              holder_request hx H1 H2 H3 H4)
    as (R1 & R2 & R3 & R4 & R5).
  { rewrite H5. constructor. }
  { rewrite H5, H6. repeat constructor. }
  { cbn. lia. }
  { exact H7. }
  { reflexivity. }
  { cbn. lia. }
  set (r := Preemptive_Priority_Scheduler.serve_process
              (PPServeInit 2%nat) (Send None) before_request) in *.
  assert (H9 : find_process 1%nat (procs (fst r)) = Some p1)
    by (vm_compute; reflexivity).
  assert (H10 : ready_queue (sched (fst r)) = Deque [1%nat; 2%nat])
    by (vm_compute; reflexivity).
  assert (H11 : now (env (fst r)) = 2) by (vm_compute; reflexivity).
  destruct (proj2 preemption_displaces_holder (fst r) 1%nat p1 holder_request
              1 1 [1%nat; 2%nat] H9 H10)
    as (S1 & S2 & _).
  split; [exact H4 |].
  split; [rewrite R2; reflexivity |].
  split; [rewrite H8 in R4; exact R4 |].
  split; [exact S1 |].
  rewrite S2, H11. reflexivity.
Defined.

(** ** A catastrophe under the preemptive-priority policy *)

(** The interruptions waiting in the event queue. *)
Definition interruptions (w : World) : list (ActId * Cause) :=
  flat_map (fun e => match q_payload e with
                     | PInterruption a c => [(a, c)]
                     | _ => []
                     end) (queue (env w)).

(** The program set up and about to run, before its first event. *)
Definition start (c : Config) (o : Oracle) (k : Policy) : World :=
  fst ((setup ;; env_run (SIM_DURATION c) 0) (initial_world c o k)).

(** Process 1 (priority 1, demand 10) arrives at time 1 and process 2
    (priority 5) at time 2; the catastrophe strikes at time 3 and the repair
    takes 20. *)
Definition catastrophe_config : Config :=
  {| LAMBDA := 1; MU := 1; XI := 1; BETA := 1; RR_QUANTUM := 3 # 10;
     SIM_DURATION := 30 |}.

Definition catastrophe_oracle : Oracle :=
  oracle_of [1; 3; 10; 0; 1; 1; 0; 100; 20; 100] [0; 0; 0; 0; 0; 0; 4]%Z.

Definition catastrophe_start : World :=
  start catastrophe_config catastrophe_oracle PreemptivePriority.

(** C1, at the failing input.  Under the preemptive-priority policy, with
    process 1 executing on the CPU (activity 19) and process 2 waiting for it
    (activity 34), the catastrophe empties the deque and interrupts the waiting
    activity only: the executing one is in neither [active_processes] nor
    [running_process_event], keeps the CPU, and completes at time 11, in the
    middle of the outage that lasts from 3 to 23. *)
Theorem catastrophe_spares_running_process :
  let before := fst (steps 37 catastrophe_start) in
  let after := fst (steps 38 catastrophe_start) in
  let final := fst (steps 1000 catastrophe_start) in
  (map req_proc (users (cpu (sched before))) = [19%nat] /\
   map req_proc (put_queue (cpu (sched before))) = [34%nat] /\
   ready_queue (sched before) = Deque [1%nat; 2%nat] /\
   active_processes (sched before) = [(2%nat, 34%nat)] /\
   running_process_event (sched before) = None) /\
  (tags after = tags before ++ [TCatastrophe; TQueueLost] /\
   ready_queue (sched after) = Deque [] /\
   interruptions after = [(34%nat, Catastrophe)] /\
   map req_proc (users (cpu (sched after))) = [19%nat]) /\
  (snd (steps 1000 catastrophe_start) = Val Stopped /\
   log final = [LArrival 1 1 10 1; LExecute 1 1 0; LArrival 2 2 1 5;
                LCatastrophe 3; LQueueLost; LInterrupt 3 2;
                LComplete 11 1; LRestored 23 20]).
Proof. vm_compute. repeat split. Qed.

(** ** A catastrophe that finds the FCFS or SJF scheduler idle *)

(** The catastrophe strikes at time 1, before any arrival; the system is
    restored at time 2; processes arrive at times 3 and 4; the horizon is
    1000. *)
Definition idle_config : Config :=
  {| LAMBDA := 1; MU := 1; XI := 1; BETA := 1; RR_QUANTUM := 3 # 10;
     SIM_DURATION := 1000 |}.

Definition idle_oracle : Oracle :=
  oracle_of [3; 1; 1; 10000; 1; 0; 1; 1; 0; 10000] [].

(** Where the run loop (activity 0) stands. *)
Definition run_loop_state (w : World) : option (Code * option EvId) :=
  match simpy.find_activity 0%nat (activities (env w)) with
  | Some x => Some (code x, target x)
  | None => None
  end.

(** C2, at the failing input.  [handle_catastrophe] of FCFS and SJF replaces
    the store while the idle run loop waits on a [get()] of the old one: the
    processes admitted after the restoration are put in the new store and stay
    there until the horizon, with the CPU free and the system up; none is ever
    served. *)
Theorem orphaned_run_loop_never_serves (k : Policy) :
  k = FCFS \/ k = SJF ->
  let final := fst (steps 100 (start idle_config idle_oracle k)) in
  snd (steps 100 (start idle_config idle_oracle k)) = Val Stopped /\
  now (env final) == 1000 /\
  tags final = [TCatastrophe; TQueueLost; TRestored; TArrival 1; TArrival 2]
  /\
  system_operational (glob final) = true /\
  users (cpu (sched final)) = [] /\
  ready_queue (sched final) = StoreRef 1 /\
  map (fun s => map item_process (items s)) (stores final)
  = [[]; [1%nat; 2%nat]] /\
  map get_queue (stores final) = [[7%nat]; []] /\
  run_loop_state final = Some (NPGet, Some (EStoreGet 7)) /\
  wait_times (glob final) = [].
Proof. intros [-> | ->]; vm_compute; repeat split; discriminate. Qed.

Lemma orphaned_run_loop_never_serves_witness :
  wait_times
    (glob (fst (steps 100 (start idle_config idle_oracle FCFS)))) = [].
Proof.
  apply (orphaned_run_loop_never_serves (or_introl eq_refl)).
Defined.

(** ** Configuration values the program never checks *)






Lemma expovariate_zero rate w :
  rate == 0 -> snd (simpy.expovariate rate w) = Exc ZeroDivisionError.
Proof.
  intros H. apply Qeqb_eq in H. unfold simpy.expovariate, bind, gets, modify.
  cbn. now rewrite H.
Qed.




(** ** Downtime against the clock

    The repair of a catastrophe is a timeout of the drawn duration, and the
    duration is added to [total_downtime] when that timeout is delivered.  That
    the sum never runs ahead of the clock is an invariant of the event loop:
    the queue is ordered by time, and the one activity that is in the middle of
    a repair waits for a timeout that is not due before the repair is over. *)

Definition fault_like (c : Code) : bool :=
  match c with
  | FaultInit | FaultWait | FaultRepair _ => true
  | _ => false
  end.

Definition is_timer (ev : EvId) : bool :=
  match ev with ETimeout _ => true | _ => false end.

(** The queue holds nothing earlier than [t] and is in order of time. *)
Fixpoint sorted_from (t : Q) (q : list QEntry) : Prop :=
  match q with
  | [] => True
  | e :: q' => t <= q_time e /\ sorted_from (q_time e) q'
  end.

Lemma entry_before_le e x :
  simpy.entry_before e x = true -> q_time e <= q_time x.
Proof.
  unfold simpy.entry_before. intros H.
  apply orb_true_iff in H as [H | H].
  - apply Qltb_lt in H. now apply Qlt_le_weak.
  - apply andb_true_iff in H as [H _]. apply Qeqb_eq in H.
    rewrite H. apply Qle_refl.
Qed.

Lemma entry_before_ge e x :
  simpy.entry_before e x = false -> q_time x <= q_time e.
Proof.
  unfold simpy.entry_before. intros H.
  apply orb_false_iff in H as [H _]. now apply Qltb_ge in H.
Qed.

Lemma sorted_from_insert e q : forall t,
  t <= q_time e -> sorted_from t q ->
  sorted_from t (simpy.insert_entry e q).
Proof.
  induction q as [| x q IH]; intros t Ht Hs; cbn.
  - auto.
  - destruct Hs as [Hx Hs].
    destruct (simpy.entry_before e x) eqn:B; cbn.
    + apply entry_before_le in B. auto.
    + apply entry_before_ge in B. auto.
Qed.

Lemma sorted_from_In t q e : sorted_from t q -> In e q -> t <= q_time e.
Proof.
  revert t. induction q as [| x q IH]; intros t Hs Hi; [destruct Hi |].
  destruct Hs as [Hx Hs]. destruct Hi as [-> | Hi]; [exact Hx |].
  eapply Qle_trans; [exact Hx | now apply IH].
Qed.

Lemma In_insert_entry e q x :
  In x (simpy.insert_entry e q) -> x = e \/ In x q.
Proof.
  induction q as [| y q IH]; cbn.
  - intros [<- | []]. now left.
  - destruct (simpy.entry_before e y); cbn.
    + intros [<- | H]; auto.
    + intros [<- | H]; auto. destruct (IH H); auto.
Qed.

(** An entry that was scheduled between [w] and [w']: not the end of the run,
    and if a timeout, a new one. *)
Definition new_entry (w w' : World) (e : QEntry) : Prop :=
  q_payload e <> PUntil /\
  forall m, q_ev e = ETimeout m ->
            (next_obj (env w) <= m < next_obj (env w'))%nat.

(** An activity that was started between [w] and [w']. *)
Definition new_activity (w w' : World) (x : Activity) : Prop :=
  fault_like (code x) = false /\
  (next_obj (env w) <= act_id x < next_obj (env w'))%nat.

(** What the program's own code may do to the event loop: schedule events at
    or after the present, start service activities, and leave the clock and
    the downtime alone. *)
Definition ext (w w' : World) : Prop :=
  cfg w' = cfg w /\
  now (env w') = now (env w) /\
  total_downtime (glob w') = total_downtime (glob w) /\
  (next_obj (env w) <= next_obj (env w'))%nat /\
  (sorted_from (now (env w)) (queue (env w)) ->
   sorted_from (now (env w)) (queue (env w'))) /\
  (forall e, In e (queue (env w')) ->
             In e (queue (env w)) \/ new_entry w w' e) /\
  exists l, activities (env w') = activities (env w) ++ l /\
            Forall (new_activity w w') l /\
            NoDup (map act_id l).

Lemma ext_refl w : ext w w.
Proof.
  repeat split; auto. exists []. rewrite app_nil_r.
  repeat split; constructor.
Qed.

Lemma ext_trans a b c : ext a b -> ext b c -> ext a c.
Proof.
  intros (C1 & N1 & T1 & O1 & S1 & Q1 & l1 & A1 & F1 & D1)
         (C2 & N2 & T2 & O2 & S2 & Q2 & l2 & A2 & F2 & D2).
  split; [congruence |]. split; [congruence |]. split; [congruence |].
  split; [lia |]. split; [| split].
  - intros H. rewrite N1 in S2. auto.
  - intros e He. destruct (Q2 e He) as [H | [H1 H2]].
    + destruct (Q1 e H) as [H' | [H1 H2]]; [now left | right].
      split; [exact H1 |]. intros m Hm. specialize (H2 m Hm). lia.
    + right. split; [exact H1 |]. intros m Hm. specialize (H2 m Hm). lia.
  - exists (l1 ++ l2). rewrite A2, A1, app_assoc. split; [reflexivity |].
    split.
    + apply Forall_app. split.
      * eapply Forall_impl; [| exact F1]. intros x [H1 H2]. split; [exact H1 | lia].
      * eapply Forall_impl; [| exact F2]. intros x [H1 H2]. split; [exact H1 | lia].
    + rewrite map_app. apply NoDup_app; [exact D1 | exact D2 |].
      intros i H1 H2.
      apply in_map_iff in H1 as (x & <- & Hx).
      apply in_map_iff in H2 as (y & E & Hy).
      rewrite Forall_forall in F1, F2.
      destruct (F1 x Hx) as [_ K1]. destruct (F2 y Hy) as [_ K2]. lia.
Qed.

(** Updates that touch neither the configuration, the clock, the queue, the
    activities nor the downtime. *)
Lemma ext_same w w' :
  cfg w' = cfg w ->
  now (env w') = now (env w) ->
  queue (env w') = queue (env w) ->
  next_obj (env w') = next_obj (env w) ->
  activities (env w') = activities (env w) ->
  total_downtime (glob w') = total_downtime (glob w) ->
  ext w w'.
Proof.
  intros C N Qe O A T.
  split; [exact C |]. split; [exact N |]. split; [exact T |].
  split; [lia |]. split; [now rewrite Qe |]. split.
  - intros e He. left. now rewrite <- Qe.
  - exists []. rewrite app_nil_r. repeat split; [exact A | constructor | constructor].
Qed.

Ltac ext_leaf := solve [apply ext_same; reflexivity].

Ltac run_prims :=
  unfold simpy.process, simpy.timeout, simpy.fresh, simpy.schedule,
    bind, gets, modify, ret, raise,
    with_env, set_next_obj, set_next_eid, set_queue, set_activities,
    ext, new_entry, new_activity; cbn.

Lemma ext_fresh : sound ext simpy.fresh.
Proof.
  intro w. run_prims.
  split; [reflexivity |]. split; [reflexivity |]. split; [reflexivity |].
  split; [lia |]. split; [auto |]. split; [auto |].
  exists []. rewrite app_nil_r. repeat split; constructor.
Qed.

Lemma ext_schedule u d ev p :
  0 <= d -> is_timer ev = false -> p <> PUntil ->
  sound ext (simpy.schedule u d ev p).
Proof.
  intros Hd Hev Hp w. run_prims.
  split; [reflexivity |]. split; [reflexivity |]. split; [reflexivity |].
  split; [lia |]. split; [| split].
  - intros H. apply sorted_from_insert; [| exact H]. cbn. lra.
  - intros e He. apply In_insert_entry in He as [-> | He]; [right | now left].
    split; [exact Hp |]. cbn. intros m Hm. subst ev. discriminate.
  - exists []. rewrite app_nil_r. repeat split; constructor.
Qed.

Lemma ext_timeout d : sound ext (simpy.timeout d).
Proof.
  intro w. unfold simpy.timeout.
  destruct (Qltb d 0) eqn:Hd; [apply ext_refl |].
  apply Qltb_ge in Hd. run_prims.
  split; [reflexivity |]. split; [reflexivity |]. split; [reflexivity |].
  split; [lia |]. split; [| split].
  - intros H. apply sorted_from_insert; [| exact H]. cbn. lra.
  - intros e He. apply In_insert_entry in He as [-> | He]; [right | now left].
    split; [discriminate |]. cbn. intros m Hm. injection Hm as <-. lia.
  - exists []. rewrite app_nil_r. repeat split; constructor.
Qed.

Lemma ext_process c : fault_like c = false -> sound ext (simpy.process c).
Proof.
  intros Hc w. run_prims.
  split; [reflexivity |]. split; [reflexivity |]. split; [reflexivity |].
  split; [lia |]. split; [| split].
  - intros H. apply sorted_from_insert; [| exact H]. cbn. lra.
  - intros e He. apply In_insert_entry in He as [-> | He]; [right | now left].
    split; [discriminate |]. cbn. discriminate.
  - eexists. split; [reflexivity |]. split.
    + constructor; [| constructor]. split; [exact Hc | cbn; lia].
    + cbn. constructor; [intros [] | constructor].
Qed.

Ltac ext_atom :=
  match goal with
  | |- sound _ simpy.fresh => apply ext_fresh
  | |- sound _ (simpy.timeout _) => apply ext_timeout
  | |- sound _ (simpy.process _) => apply ext_process; reflexivity
  | |- sound _ (simpy.schedule _ _ _ _) =>
      apply ext_schedule; [apply Qle_refl | reflexivity | discriminate]
  end.

Ltac ext_go :=
  repeat first
    [ ext_atom
    | match goal with
      | |- sound _ (Preemptive_Priority_Scheduler.interrupt_all ?l) =>
          induction l as [| [? ?] ? ?];
          cbn [Preemptive_Priority_Scheduler.interrupt_all]
      | H : sound ?R ?m |- sound ?R ?m => exact H
      end
    | sound_step ext_refl ext_trans ext_leaf
    | sound_unfold ].

Lemma ext_trigger_get s : sound ext (simpy.trigger_get s).
Proof. ext_go. Qed.

Lemma ext_trigger_put : sound ext simpy.trigger_put.
Proof. ext_go. Qed.

Lemma ext_next_failure : sound ext next_failure.
Proof. ext_go. Qed.

(** Every resumption of a generator but one: the fault injector coming back
    from a repair, which adds to the downtime. *)
Lemma ext_resume_code c r :
  match c, r with
  | FaultRepair _, Send _ => True
  | _, _ => sound ext (resume_code c r)
  end.
Proof. destruct c, r; try exact I; cbn [resume_code]; ext_go. Qed.

(** *** What a generator hands back *)

(** Every [yield] of [m] satisfies [P]. *)
Definition yields (P : Yielded -> Prop) (m : M Yielded) : Prop :=
  forall w y, snd (m w) = Val y -> P y.

Lemma yields_ret (P : Yielded -> Prop) y : P y -> yields P (ret y).
Proof. intros H w y' E. injection E as <-. exact H. Qed.

Lemma yields_raise (P : Yielded -> Prop) e : yields P (raise e).
Proof. intros w y E. discriminate E. Qed.

Lemma yields_bind A (P : Yielded -> Prop) (m : M A) k :
  (forall a, yields P (k a)) -> yields P (bind m k).
Proof.
  intros H w y. unfold bind. destruct (m w) as [w1 [a | e]].
  - apply H.
  - discriminate.
Qed.

Lemma yields_catch (P : Yielded -> Prop) m h :
  yields P m -> (forall e, yields P (h e)) -> yields P (catch m h).
Proof.
  intros Hm Hh w y. unfold catch. specialize (Hm w).
  destruct (m w) as [w1 [a | e]]; cbn in *.
  - intros E. apply Hm. exact E.
  - apply Hh.
Qed.

Lemma yields_with_request (P : Yielded -> Prop) req body :
  yields P body -> yields P (with_request req body).
Proof.
  intros Hb w y. unfold with_request. rewrite bind_run.
  unfold attempt. cbv beta iota.
  specialize (Hb w). destruct (snd (body w)) as [[c ev | ] | e] eqn:E.
  - intros E'. injection E' as <-. now apply Hb.
  - assert (K : P Return) by now apply Hb.
    rewrite bind_run.
    destruct (simpy.request_exit req (fst (body w))) as [w2 [[] | e]];
      intros E'; [injection E' as <-; exact K | discriminate].
  - rewrite bind_run.
    destruct (simpy.request_exit req (fst (body w))) as [w2 [[] | e']];
      discriminate.
Qed.

Ltac yields_go leaf :=
  repeat match goal with
         | |- yields _ (ret _) => apply yields_ret; leaf
         | |- yields _ (raise _) => apply yields_raise
         | |- yields _ (with_request _ _) => apply yields_with_request
         | |- yields _ (bind _ _) => apply yields_bind; intro
         | |- yields _ (catch _ _) => apply yields_catch; [| intro]
         | |- yields _ (match ?x with _ => _ end) => destruct x
         | |- yields _ (if ?b then _ else _) => destruct b
         | |- yields _ (let _ := _ in _) => cbv zeta
         | |- yields _ ?m => let h := head_of m in unfold h
         end.

(** The generator of the workload or of the scheduler stays what it is; the
    fault injector, outside of a catastrophe, goes back to waiting for the
    next failure. *)
Definition stays (c : Code) (y : Yielded) : Prop :=
  match y with
  | Yield c' _ => if fault_like c then c' = FaultWait
                  else fault_like c' = false
  | Return => True
  end.

Lemma yields_next_failure : yields (stays FaultWait) next_failure.
Proof. yields_go ltac:(solve [exact I | reflexivity]). Qed.

Lemma stays_resume_code c r :
  match c, r with
  | FaultWait, Send _ => True
  | _, _ => yields (stays c) (resume_code c r)
  end.
Proof.
  destruct c, r; try exact I; cbn [resume_code];
    yields_go ltac:(solve [exact I | reflexivity]).
Qed.

(** What the fault injector hands back when the failure it waited for is
    there: it waits for the next one (the system was already down), or it has
    started a repair of [d >= 0] and waits for a new timeout, due [d] from
    now. *)
Definition repair_started (w w' : World) (y : Yielded) : Prop :=
  match y with
  | Yield (FaultRepair d) ev =>
      0 <= d /\
      exists m, ev = ETimeout m /\
        (next_obj (env w) <= m < next_obj (env w'))%nat /\
        forall e, In e (queue (env w')) -> q_ev e = ETimeout m ->
                  In e (queue (env w)) \/ q_time e = now (env w) + d
  | Yield c' _ => c' = FaultWait
  | Return => True
  end.

Definition yields_from (P : World -> World -> Yielded -> Prop)
  (m : M Yielded) : Prop :=
  forall w y, snd (m w) = Val y -> P w (fst (m w)) y.

Lemma yields_from_bind A (m : M A) k :
  sound ext m -> (forall a, yields_from repair_started (k a)) ->
  yields_from repair_started (bind m k).
Proof.
  intros Hm Hk w y. unfold bind. specialize (Hm w).
  destruct (m w) as [w1 [a | e]]; cbn [fst] in Hm; [| discriminate].
  intros E. specialize (Hk a w1 y E).
  destruct Hm as (_ & N & _ & O & _ & Qn & _).
  destruct y as [c' ev |]; [| exact I].
  destruct c'; try exact Hk.
  destruct Hk as (Hd & m' & -> & Hm' & He).
  split; [exact Hd |]. exists m'. split; [reflexivity |]. split; [lia |].
  intros e Hi Hq. destruct (He e Hi Hq) as [H | H].
  - destruct (Qn e H) as [H' | [_ H']]; [now left |].
    specialize (H' m' Hq). lia.
  - right. now rewrite <- N.
Qed.

Lemma repair_timeout d :
  yields_from repair_started
    (ev <- simpy.timeout d ;; ret (Yield (FaultRepair d) ev)).
Proof.
  intros w y. unfold simpy.timeout.
  destruct (Qltb d 0) eqn:Hd; [discriminate |].
  apply Qltb_ge in Hd. run_prims. intros E. injection E as <-. cbn.
  split; [exact Hd |]. eexists. split; [reflexivity |]. split; [lia |].
  intros e Hi _. apply In_insert_entry in Hi as [-> | Hi]; auto.
Qed.

Lemma fault_wait_yields v :
  yields_from repair_started (fault_injector FaultWait (Send v)).
Proof.
  unfold fault_injector.
  apply yields_from_bind; [ext_go |]. intros [|].
  - do 6 (apply yields_from_bind; [solve [ext_go] | intro]).
    apply repair_timeout.
  - intros w y E. apply yields_next_failure in E.
    destruct y as [c' ev |]; [| exact I]. cbn in E. subst c'. reflexivity.
Qed.

(** *** The invariant *)

(** An activity in the middle of a repair of [d] waits for a timeout that is
    not due before the downtime so far plus [d]. *)
Definition repair_ok (w : World) (c : Code) (t : option EvId) : Prop :=
  match c with
  | FaultRepair d =>
      0 <= d /\
      match t with
      | Some (ETimeout m) =>
          (m < next_obj (env w))%nat /\
          forall e, In e (queue (env w)) -> q_ev e = ETimeout m ->
                    total_downtime (glob w) + d <= q_time e
      | Some _ => False
      | None => True
      end
  | _ => True
  end.

Definition faults (l : list Activity) : list Activity :=
  filter (fun x => fault_like (code x)) l.

Record Base (w : World) : Prop := {
  b_sorted : sorted_from (now (env w)) (queue (env w));
  b_down : 0 <= total_downtime (glob w) <= now (env w);
  b_ids : NoDup (map act_id (activities (env w)));
  b_below : Forall (fun x => (act_id x < next_obj (env w))%nat)
                   (activities (env w));
  b_one : (length (faults (activities (env w))) <= 1)%nat;
  b_timers : forall e m, In e (queue (env w)) -> q_ev e = ETimeout m ->
                         (m < next_obj (env w))%nat;
  b_until : forall e, In e (queue (env w)) -> q_payload e = PUntil ->
                      q_time e <= SIM_DURATION (cfg w)
}.

(** [repair_ok] for the activities that [S] selects. *)
Definition repairs_ok (S : ActId -> Prop) (w : World) : Prop :=
  forall x, In x (activities (env w)) -> S (act_id x) ->
            repair_ok w (code x) (target x).

Definition Inv (w : World) : Prop := Base w /\ repairs_ok (fun _ => True) w.

Lemma faults_app l l' : faults (l ++ l') = faults l ++ faults l'.
Proof. apply filter_app. Qed.

Lemma faults_new w w' l : Forall (new_activity w w') l -> faults l = [].
Proof.
  induction 1 as [| x l [Hx _] _ IH]; [reflexivity |].
  unfold faults in *. cbn. now rewrite Hx.
Qed.

Lemma ext_Base w w' : Base w -> ext w w' -> Base w'.
Proof.
  intros [Hs Hd Hi Hb Ho Ht Hu] (C & N & T & O & S & Qn & l & A & F & D).
  constructor.
  - rewrite N. auto.
  - now rewrite T, N.
  - rewrite A, map_app. apply NoDup_app; [exact Hi | exact D |].
    intros i H1 H2.
    apply in_map_iff in H1 as (x & <- & Hx).
    apply in_map_iff in H2 as (y & E & Hy).
    rewrite Forall_forall in Hb, F.
    specialize (Hb x Hx). destruct (F y Hy) as [_ K]. lia.
  - rewrite A. apply Forall_app. split.
    + eapply Forall_impl; [| exact Hb]. cbn. intros; lia.
    + eapply Forall_impl; [| exact F]. intros x [_ K]. lia.
  - rewrite A, faults_app, (faults_new F), app_nil_r. exact Ho.
  - intros e m He Hm. destruct (Qn e He) as [H | [_ H]].
    + specialize (Ht e m H Hm). lia.
    + specialize (H m Hm). lia.
  - intros e He Hp. rewrite C. destruct (Qn e He) as [H | [H _]]; [auto |].
    contradiction.
Qed.

Lemma ext_repairs_ok (S : ActId -> Prop) w w' :
  Base w -> repairs_ok S w -> ext w w' -> repairs_ok S w'.
Proof.
  intros HB HR (C & N & T & O & _ & Qn & l & A & F & D) x Hx HS.
  rewrite A in Hx. apply in_app_iff in Hx as [Hx | Hx].
  - specialize (HR x Hx HS). unfold repair_ok in *.
    destruct (code x); auto. destruct HR as [Hd HR]. split; [exact Hd |].
    destruct (target x) as [[] |]; auto.
    destruct HR as [Hn HR]. split; [lia |].
    intros e He Hq. rewrite T. destruct (Qn e He) as [H | [_ H]]; [auto |].
    specialize (H _ Hq). lia.
  - rewrite Forall_forall in F. destruct (F x Hx) as [K _].
    unfold repair_ok. destruct (code x); try exact I. discriminate.
Qed.

Lemma ext_Inv w w' : Inv w -> ext w w' -> Inv w'.
Proof.
  intros [HB HR] He. split; [eapply ext_Base | eapply ext_repairs_ok]; eauto.
Qed.

(** At most one activity runs the fault injector. *)
Lemma faults_unique l x y :
  (length (faults l) <= 1)%nat -> In x l -> In y l ->
  fault_like (code x) = true -> fault_like (code y) = true -> x = y.
Proof.
  intros H Hx Hy Fx Fy.
  assert (Ix : In x (faults l)) by (apply filter_In; auto).
  assert (Iy : In y (faults l)) by (apply filter_In; auto).
  destruct (faults l) as [| a [| b t]]; cbn in *;
    [destruct Ix | | exfalso; lia].
  destruct Ix as [<- | []]. destruct Iy as [<- | []]. reflexivity.
Qed.

Lemma find_activity_In a l x :
  simpy.find_activity a l = Some x -> In x l /\ act_id x = a.
Proof.
  induction l as [| y l IH]; cbn; [discriminate |].
  destruct (act_id y =? a)%nat eqn:E.
  - intros H. injection H as <-. apply Nat.eqb_eq in E. auto.
  - intros H. destruct (IH H). auto.
Qed.

Lemma find_activity_unique l x :
  NoDup (map act_id l) -> In x l -> simpy.find_activity (act_id x) l = Some x.
Proof.
  induction l as [| y l IH]; cbn; [intros _ [] |].
  intros Hn [-> | Hx].
  - now rewrite Nat.eqb_refl.
  - inversion Hn as [| ? ? Hy Hn']; subst.
    destruct (act_id y =? act_id x)%nat eqn:E; [| auto].
    apply Nat.eqb_eq in E. exfalso. apply Hy. rewrite E.
    now apply in_map.
Qed.

Lemma find_activity_app a l l' x :
  simpy.find_activity a l = Some x ->
  simpy.find_activity a (l ++ l') = Some x.
Proof.
  induction l as [| y l IH]; cbn; [discriminate |].
  destruct (act_id y =? a)%nat; auto.
Qed.

Lemma evid_eqb_eq x y : evid_eqb x y = true -> x = y.
Proof.
  destruct x, y; cbn; try discriminate; intros H; apply Nat.eqb_eq in H;
    now subst.
Qed.

(** The activity the event loop resumes for an event is waiting for it. *)
Lemma waiter_spec ev l a :
  NoDup (map act_id l) -> waiter ev l = Some a ->
  exists x, simpy.find_activity a l = Some x /\ target x = Some ev.
Proof.
  unfold waiter. intros Hn.
  destruct (find _ l) as [x |] eqn:F; [| discriminate].
  intros H. injection H as <-.
  apply find_some in F as [Hx Ht]. exists x. split.
  - now apply find_activity_unique.
  - destruct (target x) as [t |]; [| discriminate].
    apply evid_eqb_eq in Ht. now subst.
Qed.

Lemma repair_ok_same w w' c t :
  next_obj (env w') = next_obj (env w) ->
  queue (env w') = queue (env w) ->
  total_downtime (glob w') = total_downtime (glob w) ->
  repair_ok w c t -> repair_ok w' c t.
Proof.
  intros O Qe T. unfold repair_ok. now rewrite O, Qe, T.
Qed.

(** *** Resuming one activity *)

Lemma map_update_activity a f l :
  (forall y, act_id (f y) = act_id y) ->
  map act_id (simpy.update_activity a f l) = map act_id l.
Proof.
  intros Hf. unfold simpy.update_activity. rewrite map_map.
  apply map_ext. intros y. destruct (act_id y =? a)%nat; auto.
Qed.

Lemma faults_update_activity a f l :
  (forall y, In y l -> act_id y = a ->
             fault_like (code (f y)) = fault_like (code y)) ->
  length (faults (simpy.update_activity a f l)) = length (faults l).
Proof.
  unfold faults, simpy.update_activity.
  induction l as [| y l IH]; intros H; [reflexivity |].
  assert (IH' := IH (fun z Hz => H z (or_intror Hz))).
  cbn [map filter]. destruct (act_id y =? a)%nat eqn:E.
  - apply Nat.eqb_eq in E. rewrite (H y (or_introl eq_refl) E).
    destruct (fault_like (code y)); cbn [length]; now rewrite IH'.
  - destruct (fault_like (code y)); cbn [length]; now rewrite IH'.
Qed.

Lemma In_update_activity a f l y' :
  In y' (simpy.update_activity a f l) ->
  exists y, In y l /\
            ((act_id y = a /\ y' = f y) \/ (act_id y <> a /\ y' = y)).
Proof.
  unfold simpy.update_activity. intros H.
  apply in_map_iff in H as (y & E & Hy). exists y. split; [exact Hy |].
  destruct (act_id y =? a)%nat eqn:K.
  - apply Nat.eqb_eq in K. auto.
  - apply Nat.eqb_neq in K. auto.
Qed.

(** Replacing the state of activity [a], when the new state fits. *)
Lemma set_activity_Inv a f w x :
  Base w -> repairs_ok (fun i => i <> a) w ->
  simpy.find_activity a (activities (env w)) = Some x ->
  (forall y, act_id (f y) = act_id y) ->
  fault_like (code (f x)) = fault_like (code x) ->
  repair_ok w (code (f x)) (target (f x)) ->
  Inv (fst (set_activity a f w)).
Proof.
  intros [Hs Hd Hi Hb Ho Ht Hu] HR Fa Hf Hc Hx.
  assert (U : forall y, In y (activities (env w)) -> act_id y = a -> y = x).
  { intros y Hy E. pose proof (@find_activity_unique _ _ Hi Hy) as K.
    rewrite E, Fa in K. now injection K. }
  unfold set_activity, modify. cbn [fst].
  split; [constructor |]; cbn.
  - exact Hs.
  - exact Hd.
  - now rewrite map_update_activity.
  - apply Forall_forall. intros y' Hy'.
    apply In_update_activity in Hy' as (y & Hy & [[E ->] | [E ->]]);
      rewrite Forall_forall in Hb; [rewrite Hf |]; now apply Hb.
  - rewrite faults_update_activity; [exact Ho |].
    intros y Hy E. now rewrite (U y Hy E).
  - exact Ht.
  - exact Hu.
  - intros y' Hy' _. cbn in Hy'.
    apply In_update_activity in Hy' as (y & Hy & [[E ->] | [E ->]]).
    + rewrite (U y Hy E).
      eapply repair_ok_same; [| | | exact Hx]; reflexivity.
    + eapply repair_ok_same; [| | | exact (HR y Hy E)]; reflexivity.
Qed.

(** The end of [Process._resume]: what becomes of the process once its
    generator has yielded, returned or raised. *)
Definition finish (a : ActId) (o : Outcome Yielded) : M unit :=
  match o with
  | Val (Yield c ev) =>
      set_activity a (fun y => {| act_id := act_id y; code := c;
                                  target := Some ev; triggered := None |})
  | Val Return =>
      set_activity a (fun y => {| act_id := act_id y; code := code y;
                                  target := None;
                                  triggered := Some None |}) ;;
      simpy.schedule false 0 (EProcess a) (PProcess a None)
  | Exc e =>
      set_activity a (fun y => {| act_id := act_id y; code := code y;
                                  target := None;
                                  triggered := Some (Some e) |}) ;;
      simpy.schedule false 0 (EProcess a) (PProcess a (Some e))
  end ;;
  modify (with_env (set_active_process None)).

Lemma resume_unfold a r w :
  resume a r w =
  match simpy.find_activity a (activities (env w)) with
  | None => (w, Exc Dangling)
  | Some x =>
      let w1 := with_env (set_active_process (Some a)) w in
      finish a (snd (resume_code (code x) r w1))
               (fst (resume_code (code x) r w1))
  end.
Proof.
  unfold resume, simpy.activity, finish, bind at 1 2, gets.
  destruct (simpy.find_activity a (activities (env w))); reflexivity.
Qed.

(** What the generator handed back fits the invariant. *)
Definition outcome_ok (w : World) (c : Code) (o : Outcome Yielded) : Prop :=
  match o with
  | Val (Yield c' ev) =>
      fault_like c' = fault_like c /\ repair_ok w c' (Some ev)
  | _ => repair_ok w c None
  end.

Lemma finish_Inv a o w x :
  Base w -> repairs_ok (fun i => i <> a) w ->
  simpy.find_activity a (activities (env w)) = Some x ->
  outcome_ok w (code x) o ->
  Inv (fst (finish a o w)).
Proof.
  intros HB HR Fa Ho. unfold finish.
  assert (L : forall w', Inv w' ->
            Inv (with_env (set_active_process None) w')).
  { intros w' H. eapply ext_Inv; [exact H |]. apply ext_same; reflexivity. }
  assert (S : forall w' e, Inv w' ->
            Inv (fst (simpy.schedule false 0 (EProcess a) (PProcess a e) w'))).
  { intros w' e H. eapply ext_Inv; [exact H |].
    apply ext_schedule; [apply Qle_refl | reflexivity | discriminate]. }
  destruct o as [[c ev |] | e]; cbn in Ho.
  - apply L. destruct Ho as [H1 H2].
    eapply set_activity_Inv; eauto.
  - apply L. apply S. eapply set_activity_Inv; eauto.
  - apply L. apply S. eapply set_activity_Inv; eauto.
Qed.

Lemma stays_good w c y :
  stays c y ->
  match y with
  | Yield c' ev => fault_like c' = fault_like c /\ repair_ok w c' (Some ev)
  | Return => True
  end.
Proof.
  destruct y as [c' ev |]; [| auto]. cbn.
  destruct (fault_like c).
  - intros ->. split; [reflexivity | exact I].
  - intros H. split; [exact H |]. destruct c'; try exact I. discriminate.
Qed.

Lemma started_good w w' y :
  Base w -> ext w w' -> repair_started w w' y ->
  match y with
  | Yield c' ev =>
      fault_like c' = fault_like FaultWait /\ repair_ok w' c' (Some ev)
  | Return => True
  end.
Proof.
  intros HB (_ & N & T & _) H. destruct y as [c' ev |]; [| exact I].
  destruct c'; try discriminate H; try (split; [reflexivity | exact I]).
  destruct H as (Hd & m & -> & Hm & He).
  split; [reflexivity |]. split; [exact Hd |]. split; [lia |].
  intros e Hi Hq. destruct (He e Hi Hq) as [H | H].
  - pose proof (b_timers HB e H Hq). lia.
  - rewrite H, T. destruct (b_down HB) as [_ K]. lra.
Qed.

(** Any resumption that leaves the downtime alone. *)
Lemma resume_code_Inv a x c r w :
  Inv w ->
  simpy.find_activity a (activities (env w)) = Some x ->
  code x = c ->
  sound ext (resume_code c r) ->
  (forall y, snd (resume_code c r w) = Val y ->
     match y with
     | Yield c' ev => fault_like c' = fault_like c /\
                      repair_ok (fst (resume_code c r w)) c' (Some ev)
     | Return => True
     end) ->
  Inv (fst (finish a (snd (resume_code c r w)) (fst (resume_code c r w)))).
Proof.
  intros [HB HR] Fa Cx He Hy. specialize (He w).
  set (w2 := fst (resume_code c r w)) in *.
  assert (K : repair_ok w2 c None).
  { destruct (find_activity_In _ _ Fa) as [Hx _].
    specialize (HR x Hx I). rewrite Cx in HR.
    destruct c; try exact I. destruct HR as [Hd _]. split; [exact Hd | exact I]. }
  apply finish_Inv with (x := x).
  - eapply ext_Base; eauto.
  - intros y Hi _.
    exact (@ext_repairs_ok (fun _ => True) w w2 HB HR He y Hi I).
  - destruct He as (_ & _ & _ & _ & _ & _ & l & A & _). rewrite A.
    now apply find_activity_app.
  - rewrite Cx. unfold outcome_ok.
    destruct (snd (resume_code c r w)) as [[c' ev |] | e];
      [exact (Hy _ eq_refl) | exact K | exact K].
Qed.

(** The state after lines 70-74 of [fault_injector]. *)
Definition restore (d : Q) (w : World) : World :=
  with_log (fun l => l ++ [LRestored (now (env w)) d])
    (with_sched (set_is_recovering true)
       (with_glob (set_last_restoration_time (now (env w)))
          (with_glob (set_system_operational true)
             (with_glob (fun g =>
                set_total_downtime (total_downtime g + d) g) w)))).

Lemma repair_done d v w :
  fault_injector (FaultRepair d) (Send v) w = next_failure (restore d w).
Proof. reflexivity. Qed.

(** The fault injector comes back from a repair that is over. *)
Lemma resume_repair_Inv a x d v w :
  Inv w ->
  simpy.find_activity a (activities (env w)) = Some x ->
  code x = FaultRepair d ->
  total_downtime (glob w) + d <= now (env w) ->
  Inv (fst (finish a (snd (resume_code (FaultRepair d) (Send v) w))
                     (fst (resume_code (FaultRepair d) (Send v) w)))).
Proof.
  intros [HB HR] Fa Cx Hd. cbn [resume_code]. rewrite repair_done.
  destruct (find_activity_In _ _ Fa) as [Hx Ha].
  assert (D0 : 0 <= d).
  { specialize (HR x Hx I). rewrite Cx in HR. apply HR. }
  assert (HB' : Base (restore d w)).
  { destruct HB as [Hs Hdn Hi Hb Ho Ht Hu]. constructor; auto.
    cbn. destruct Hdn. split; [lra | exact Hd]. }
  assert (HR' : repairs_ok (fun i => i <> a) (restore d w)).
  { intros y Hy Na. unfold repair_ok.
    destruct (code y) eqn:Cy; try exact I. exfalso. apply Na.
    rewrite <- Ha. f_equal.
    apply (@faults_unique _ y x (b_one HB) Hy Hx);
      [now rewrite Cy | now rewrite Cx]. }
  pose proof (ext_next_failure (restore d w)) as He.
  pose proof (@yields_next_failure (restore d w)) as Hy.
  set (w2 := fst (next_failure (restore d w))) in *.
  apply finish_Inv with (x := x).
  - eapply ext_Base; eauto.
  - eapply ext_repairs_ok; eauto.
  - destruct He as (_ & _ & _ & _ & _ & _ & l & A & _). rewrite A.
    now apply find_activity_app.
  - rewrite Cx. unfold outcome_ok.
    destruct (snd (next_failure (restore d w))) as [[c' ev |] | e].
    + specialize (Hy _ eq_refl). cbn in Hy. subst c'.
      split; [reflexivity | exact I].
    + split; [exact D0 | exact I].
    + split; [exact D0 | exact I].
Qed.

Lemma resume_Inv a r w :
  Inv w ->
  (forall x v d,
     simpy.find_activity a (activities (env w)) = Some x ->
     r = Send v -> code x = FaultRepair d ->
     total_downtime (glob w) + d <= now (env w)) ->
  Inv (fst (resume a r w)).
Proof.
  intros HI Hd. rewrite resume_unfold.
  destruct (simpy.find_activity a (activities (env w))) as [x |] eqn:Fa;
    [| exact HI].
  cbv zeta. specialize (Hd x).
  assert (HI1 : Inv (with_env (set_active_process (Some a)) w)).
  { eapply ext_Inv; [exact HI |]. apply ext_same; reflexivity. }
  assert (Fa1 : simpy.find_activity a
                  (activities (env (with_env (set_active_process (Some a)) w)))
                = Some x) by exact Fa.
  assert (Hd1 : forall v d, r = Send v -> code x = FaultRepair d ->
            total_downtime (glob (with_env (set_active_process (Some a)) w)) + d
            <= now (env (with_env (set_active_process (Some a)) w))).
  { intros v d. exact (Hd v d eq_refl). }
  clear Hd HI Fa.
  generalize dependent (with_env (set_active_process (Some a)) w).
  clear w. intros w HI Fa Hd.
  pose proof (ext_resume_code (code x) r) as He.
  pose proof (stays_resume_code (code x) r) as Hs.
  destruct (code x) eqn:Cx; destruct r as [v | e];
    try (apply resume_code_Inv with (x := x); auto;
         intros y Hy; apply stays_good; exact (Hs w y Hy)).
  - (* the failure is there *)
    apply resume_code_Inv with (x := x); auto.
    intros y Hy. apply started_good with (w := w).
    + apply HI.
    + apply He.
    + exact (@fault_wait_yields v w y Hy).
  - (* the repair is over *)
    apply resume_repair_Inv with (x := x); auto.
    exact (Hd v _ eq_refl eq_refl).
Qed.

(** *** One step of the event loop *)

(** The event loop takes the next event off the queue. *)
Definition pop (e : QEntry) (q' : list QEntry) (w : World) : World :=
  with_env (fun v => set_now (q_time e) (set_queue q' v)) w.

(** Whoever waits for event [ev] in the middle of a repair has waited for the
    length of the repair. *)
Definition due (ev : EvId) (w : World) : Prop :=
  forall x d, In x (activities (env w)) -> target x = Some ev ->
              code x = FaultRepair d ->
              total_downtime (glob w) + d <= now (env w).

Lemma pop_Inv e q' w :
  Inv w -> queue (env w) = e :: q' ->
  Inv (pop e q' w) /\ due (q_ev e) (pop e q' w).
Proof.
  intros [[Hs Hd Hi Hb Ho Ht Hu] HR] Q. rewrite Q in *.
  destruct Hs as [Hn Hs]. split; [split; [constructor |] |]; cbn.
  - exact Hs.
  - destruct Hd. split; [assumption | lra].
  - exact Hi.
  - exact Hb.
  - exact Ho.
  - intros e' m H. apply Ht. now right.
  - intros e' H. apply Hu. now right.
  - intros x Hx _. specialize (HR x Hx I). unfold repair_ok in *. cbn.
    destruct (code x); auto. destruct HR as [D0 HR]. split; [exact D0 |].
    destruct (target x) as [[] |]; auto.
    destruct HR as [Hm HR]. split; [exact Hm |].
    intros e' H. apply HR. rewrite Q. now right.
  - intros x d Hx Tx Cx. specialize (HR x Hx I). unfold repair_ok in HR.
    cbn in Hx. rewrite Cx, Tx in HR. destruct HR as [_ HR].
    destruct (q_ev e) eqn:E; try contradiction.
    destruct HR as [_ HR]. apply HR; [rewrite Q; now left | exact E].
Qed.

Lemma fst_then A B (m : M A) (b : B) w : fst ((m ;; ret b) w) = fst (m w).
Proof. unfold bind, ret. destruct (m w) as [w1 [a | e]]; reflexivity. Qed.

Lemma waiter_due ev r b w :
  Inv w -> due ev w -> waiter ev (activities (env w)) = Some b ->
  Inv (fst (resume b r w)).
Proof.
  intros HI Hd W. apply resume_Inv; [exact HI |].
  intros x v d Fa _ Cx.
  destruct (@waiter_spec ev _ b (b_ids (proj1 HI)) W) as (x' & Fa' & Tx).
  rewrite Fa in Fa'. injection Fa' as <-.
  destruct (find_activity_In _ _ Fa) as [Hx _].
  exact (Hd x d Hx Tx Cx).
Qed.

Lemma deliver_Inv ev r w :
  Inv w -> due ev w -> Inv (fst (deliver ev r w)).
Proof.
  intros HI Hd. unfold deliver. rewrite bind_run. unfold gets.
  destruct (waiter ev (activities (env w))) as [b |] eqn:W; [| exact HI].
  now apply waiter_due with (ev := ev).
Qed.

(** An interruption is delivered: the process stops waiting and the
    exception is thrown into its generator. *)
Lemma interruption_Inv a cause w :
  Inv w ->
  Inv (fst ((t <- simpy.is_triggered a ;;
             (if t then ret tt
              else
                set_activity a (fun y => {| act_id := act_id y; code := code y;
                                            target := None;
                                            triggered := triggered y |}) ;;
                resume a (Throw (Interrupt cause))) ;;
             ret Running) w)).
Proof.
  intros HI. unfold simpy.is_triggered, simpy.activity.
  rewrite !bind_run. unfold gets.
  destruct (simpy.find_activity a (activities (env w))) as [x |] eqn:Fa;
    [| exact HI].
  cbn [ret]. rewrite fst_then. destruct (triggered x); [exact HI |].
  rewrite bind_run.
  assert (HI' : Inv (fst (set_activity a
            (fun y => {| act_id := act_id y; code := code y; target := None;
                         triggered := triggered y |}) w))).
  { destruct HI as [HB HR].
    apply set_activity_Inv with (x := x); auto.
    - intros y Hy _. now apply HR.
    - cbn. destruct (find_activity_In _ _ Fa) as [Hx _].
      specialize (HR x Hx I). unfold repair_ok in *.
      destruct (code x); auto. split; [apply HR | exact I]. }
  unfold set_activity, modify in *. cbn [fst] in HI'.
  apply resume_Inv; [exact HI' |]. discriminate.
Qed.

Lemma step_Inv w : Inv w -> Inv (fst (step w)).
Proof.
  intros HI. unfold step. rewrite bind_run. unfold gets.
  destruct (queue (env w)) as [| e q'] eqn:Q; [exact HI |].
  rewrite bind_run. unfold modify. cbv beta iota.
  destruct (pop_Inv HI Q) as [HI1 Hd]. fold (pop e q' w).
  set (w1 := pop e q' w) in *. clearbody w1. clear HI Q.
  destruct (q_payload e).
  - rewrite fst_then. now apply deliver_Inv.
  - rewrite fst_then. now apply deliver_Inv.
  - now apply interruption_Inv.
  - rewrite bind_run. unfold gets.
    destruct (waiter (q_ev e) (activities (env w1))) as [b |] eqn:W.
    + destruct failed; rewrite fst_then; now apply waiter_due with (ev := q_ev e).
    + destruct failed; exact HI1.
  - rewrite fst_then. eapply ext_Inv; [exact HI1 | apply ext_trigger_get].
  - rewrite fst_then. now apply deliver_Inv.
  - rewrite fst_then. now apply deliver_Inv.
  - rewrite fst_then. eapply ext_Inv; [exact HI1 | apply ext_trigger_put].
  - exact HI1.
Qed.

(** *** The whole run *)

Lemma snd_then A B (m : M A) (b c : B) w :
  snd ((m ;; ret b) w) = Val c -> c = b.
Proof.
  unfold bind, ret. destruct (m w) as [w1 [a | e]]; cbn; congruence.
Qed.

(** The run stops at the event that [env.run] scheduled for the horizon. *)
Lemma step_stopped w :
  Inv w -> snd (step w) = Val Stopped ->
  now (env (fst (step w))) <= SIM_DURATION (cfg (fst (step w))).
Proof.
  intros [HB _]. unfold step. rewrite bind_run. unfold gets.
  destruct (queue (env w)) as [| e q'] eqn:Q; [discriminate |].
  rewrite bind_run. unfold modify. cbv beta iota.
  destruct (q_payload e) eqn:P;
    try (intros H; apply snd_then in H; discriminate H).
  - unfold simpy.is_triggered, simpy.activity. rewrite !bind_run.
    unfold gets. cbv beta iota.
    destruct (simpy.find_activity _ _); [| discriminate].
    cbn [ret]. intros H. apply snd_then in H. discriminate H.
  - rewrite bind_run. unfold gets. cbv beta iota.
    destruct (waiter _ _); destruct failed;
      try (intros H; apply snd_then in H; discriminate H); discriminate.
  - intros _. cbn. apply (b_until HB); [rewrite Q; now left | exact P].
Qed.

Lemma steps_Inv n : forall w,
  Inv w ->
  Inv (fst (steps n w)) /\
  (snd (steps n w) = Val Stopped ->
   now (env (fst (steps n w))) <= SIM_DURATION (cfg (fst (steps n w)))).
Proof.
  induction n as [| n IH]; intros w HI; cbn [steps].
  - split; [exact HI | discriminate].
  - rewrite bind_run.
    pose proof (step_Inv HI) as H1. pose proof (step_stopped HI) as H2.
    destruct (step w) as [w1 [[] | e]]; cbn [fst snd] in *.
    + now apply IH.
    + split; [exact H1 | intros _; now apply H2].
    + split; [exact H1 | discriminate].
Qed.

(** [env.run(until=SIM_DURATION)] puts the end of the run in the queue. *)
Lemma until_Inv u w :
  Inv w -> now (env w) <= SIM_DURATION (cfg w) ->
  Inv (fst (simpy.schedule true (SIM_DURATION (cfg w) - now (env w))
              (EUntil u) PUntil w)).
Proof.
  intros [[Hs Hd Hi Hb Ho Ht Hu] HR] Hn. run_prims.
  split; [constructor |]; cbn; auto.
  - apply sorted_from_insert; [cbn; lra | exact Hs].
  - intros e m He. apply In_insert_entry in He as [-> | He]; [discriminate |].
    now apply Ht.
  - intros e He. apply In_insert_entry in He as [-> | He]; [cbn; lra |].
    now apply Hu.
  - intros x Hx _. specialize (HR x Hx I). unfold repair_ok in *. cbn.
    destruct (code x); auto. destruct HR as [D0 HR]. split; [exact D0 |].
    destruct (target x) as [[] |]; auto.
    destruct HR as [Hm HR]. split; [exact Hm |].
    intros e He. apply In_insert_entry in He as [-> | He]; [discriminate |].
    now apply HR.
Qed.

Lemma env_run_Inv fuel w :
  Inv w ->
  let r := env_run (SIM_DURATION (cfg w)) fuel w in
  Inv (fst r) /\
  (snd r = Val Stopped ->
   now (env w) < SIM_DURATION (cfg w) /\
   now (env (fst r)) <= SIM_DURATION (cfg (fst r))).
Proof.
  intros HI. cbv zeta. unfold env_run, env_now. rewrite bind_run.
  unfold gets. cbv beta iota.
  destruct (Qleb (SIM_DURATION (cfg w)) (now (env w))) eqn:L;
    [split; [exact HI | discriminate] |].
  assert (Hlt : now (env w) < SIM_DURATION (cfg w)).
  { apply Qnot_le_lt. intros K. apply Qleb_le in K. congruence. }
  rewrite bind_run.
  pose proof (ext_Inv HI (ext_fresh w)) as HI1.
  assert (E : simpy.fresh w
              = (fst (simpy.fresh w), Val (next_obj (env w)))) by reflexivity.
  rewrite E. cbv beta iota.
  set (w1 := fst (simpy.fresh w)) in *.
  rewrite bind_run.
  assert (HI2 : Inv (fst (simpy.schedule true
                            (SIM_DURATION (cfg w) - now (env w))
                            (EUntil (next_obj (env w))) PUntil w1))).
  { apply (@until_Inv (next_obj (env w)) w1 HI1). cbn. now apply Qlt_le_weak. }
  unfold simpy.schedule at 1, modify at 1. cbv beta iota.
  unfold simpy.schedule, modify in HI2. cbn [fst] in HI2.
  destruct (steps_Inv fuel HI2) as [K1 K2].
  split; [exact K1 |]. intros H. split; [exact Hlt | now apply K2].
Qed.

(** Starting the fault injector, the one activity of its kind. *)
Lemma fault_process_Inv w :
  Inv w -> faults (activities (env w)) = [] ->
  Inv (fst (simpy.process FaultInit w)).
Proof.
  intros [[Hs Hd Hi Hb Ho Ht Hu] HR] Hf. run_prims.
  split; [constructor |]; cbn.
  - apply sorted_from_insert; [cbn; lra | exact Hs].
  - exact Hd.
  - rewrite map_app. apply NoDup_app; [exact Hi | repeat constructor; auto |].
    intros i H1 [<- | []].
    apply in_map_iff in H1 as (x & E & Hx).
    rewrite Forall_forall in Hb. specialize (Hb x Hx). cbn in E. lia.
  - apply Forall_app. split.
    + eapply Forall_impl; [| exact Hb]. cbn. intros; lia.
    + repeat constructor.
  - rewrite faults_app, Hf. cbn. lia.
  - intros e m He. apply In_insert_entry in He as [-> | He]; [discriminate |].
    intros Hm. specialize (Ht e m He Hm). lia.
  - intros e He. apply In_insert_entry in He as [-> | He]; [discriminate |].
    now apply Hu.
  - intros x Hx _. apply in_app_iff in Hx as [Hx | [<- | []]]; [| exact I].
    specialize (HR x Hx I). unfold repair_ok in *. cbn.
    destruct (code x); auto. destruct HR as [D0 HR]. split; [exact D0 |].
    destruct (target x) as [[] |]; auto.
    destruct HR as [Hm HR]. split; [lia |].
    intros e He. apply In_insert_entry in He as [-> | He]; [discriminate |].
    now apply HR.
Qed.

Lemma initial_Inv c o k : Inv (initial_world c o k).
Proof.
  split; [constructor |]; cbn; try (intros ? []); try (intros ? ? []);
    try constructor; try lra; try lia.
Qed.

Lemma ext_Scheduler_init : sound ext Scheduler_init.
Proof.
  unfold Scheduler_init.
  apply (@sound_bind _ ext_trans); [ext_go |]. intros []; ext_go.
Qed.

Lemma process_returns c w :
  simpy.process c w = (fst (simpy.process c w), Val (next_obj (env w))).
Proof. reflexivity. Qed.

Lemma Scheduler_init_returns w :
  Scheduler_init w = (fst (Scheduler_init w), Val tt).
Proof.
  unfold Scheduler_init. rewrite bind_run. unfold gets. cbv beta iota.
  rewrite bind_run, process_returns. cbv beta iota.
  destruct (sched_class (sched w)); reflexivity.
Qed.

Lemma setup_run w :
  setup w
  = (fst (simpy.process FaultInit
            (fst (simpy.process GenInit (fst (Scheduler_init w))))), Val tt).
Proof.
  unfold setup.
  rewrite bind_run, Scheduler_init_returns. cbv beta iota.
  rewrite bind_run, process_returns. cbv beta iota.
  rewrite bind_run, process_returns. reflexivity.
Qed.

(** The state [__main__] hands to [env.run]. *)
Lemma setup_Inv c o k :
  Inv (fst (setup (initial_world c o k))) /\
  now (env (fst (setup (initial_world c o k)))) = 0 /\
  cfg (fst (setup (initial_world c o k))) = c.
Proof.
  rewrite setup_run. cbn [fst].
  pose proof (ext_Scheduler_init (initial_world c o k)) as E1.
  set (w1 := fst (Scheduler_init (initial_world c o k))) in *.
  assert (E2 : ext w1 (fst (simpy.process GenInit w1)))
    by (apply ext_process; reflexivity).
  set (w2 := fst (simpy.process GenInit w1)) in *.
  pose proof (ext_trans E1 E2) as E.
  pose proof (ext_Inv (initial_Inv c o k) E) as HI.
  assert (Hf : faults (activities (env w2)) = []).
  { destruct E as (_ & _ & _ & _ & _ & _ & l & A & F & _).
    rewrite A. cbn [initial_world activities env app].
    exact (faults_new F). }
  split; [exact (fault_process_Inv HI Hf) |].
  destruct E as (C & N & _). clearbody w2. clear - C N.
  split.
  - transitivity (now (env w2)); [reflexivity | now rewrite N].
  - transitivity (cfg w2); [reflexivity | now rewrite C].
Qed.

(** *** Downtime against the log *)

(** The repair durations of the "System RESTORED" lines. *)
Fixpoint logged_downtime (l : list LogEntry) : Q :=
  match l with
  | [] => 0
  | LRestored _ d :: l' => d + logged_downtime l'
  | _ :: l' => logged_downtime l'
  end.

Lemma logged_downtime_app l l' :
  logged_downtime (l ++ l') == logged_downtime l + logged_downtime l'.
Proof.
  induction l as [| e l IH]; cbn [app logged_downtime]; [lra |].
  destruct e; rewrite ?IH; lra.
Qed.

(** From [w] to [w'] the downtime grew by the repairs that were logged. *)
Definition accounted (w w' : World) : Prop :=
  cfg w' = cfg w /\
  total_downtime (glob w') - logged_downtime (log w')
  == total_downtime (glob w) - logged_downtime (log w).

Lemma accounted_refl w : accounted w w.
Proof. split; [reflexivity | lra]. Qed.

Lemma accounted_trans a b c : accounted a b -> accounted b c -> accounted a c.
Proof. intros [C1 H1] [C2 H2]. split; [congruence | lra]. Qed.

Ltac acc_leaf :=
  split; [reflexivity |]; cbn; rewrite ?logged_downtime_app; cbn; lra.

Ltac acc_go :=
  repeat first
    [ match goal with
      | |- sound _ (Preemptive_Priority_Scheduler.interrupt_all ?l) =>
          induction l as [| [? ?] ? ?];
          cbn [Preemptive_Priority_Scheduler.interrupt_all]
      | H : sound ?R ?m |- sound ?R ?m => exact H
      | H : forall c r, sound ?R (resume_code c r)
        |- sound ?R (resume_code _ _) => apply H
      end
    | sound_step accounted_refl accounted_trans acc_leaf
    | sound_unfold ].

Lemma accounted_next_failure : sound accounted next_failure.
Proof. acc_go. Qed.

Lemma accounted_resume_code c r : sound accounted (resume_code c r).
Proof.
  destruct c, r; cbn [resume_code];
    try match goal with
        | |- sound _ (fault_injector (FaultRepair ?d) (Send ?v)) =>
            intro w; rewrite repair_done;
            apply accounted_trans with (b := restore d w);
            [acc_leaf | apply accounted_next_failure]
        end;
    acc_go.
Qed.

Lemma accounted_step : sound accounted step.
Proof. pose proof accounted_resume_code. acc_go. Qed.

Lemma accounted_steps n : sound accounted (steps n).
Proof.
  induction n as [| n IH]; cbn [steps].
  - apply (@sound_ret _ accounted_refl).
  - apply (@sound_bind _ accounted_trans); [apply accounted_step |].
    intros []; [apply IH | apply (@sound_ret _ accounted_refl)].
Qed.

Lemma accounted_env_run d n : sound accounted (env_run d n).
Proof. pose proof (accounted_steps n). unfold env_run. acc_go. Qed.

Lemma accounted_main n : sound accounted (main n).
Proof.
  pose proof (fun d => accounted_env_run d n). unfold main.
  repeat first
    [ match goal with
      | H : forall d, sound ?R (env_run d _) |- sound ?R (env_run _ _) =>
          apply H
      end
    | sound_step accounted_refl accounted_trans acc_leaf
    | sound_unfold ].
Qed.

Lemma no_restoration_logged l :
  filter is_restored l = [] -> logged_downtime l = 0.
Proof.
  induction l as [| e l IH]; [reflexivity |].
  destruct e; cbn; auto; discriminate.
Qed.

Lemma percentage_bounds D t :
  0 < D -> 0 <= t <= D ->
  0 <= (D - t) / D * 100 <= 100 /\
  (t == 0 -> (D - t) / D * 100 == 100).
Proof.
  intros HD [H0 H1].
  assert (L : 0 <= (D - t) / D).
  { apply Qle_shift_div_l; [exact HD | lra]. }
  assert (U : (D - t) / D <= 1).
  { apply Qle_shift_div_r; [exact HD | lra]. }
  split; [split; lra |].
  intros Ht. rewrite Ht. field. intros K. rewrite K in HD.
  now apply Qlt_irrefl in HD.
Qed.

Lemma main_unfold fuel w :
  main fuel w
  = match setup w with
    | (w1, Val _) =>
        match env_run (SIM_DURATION (cfg w1)) fuel w1 with
        | (w2, Val Running) => (w2, Val None)
        | (w2, Val Stopped) =>
            match results_analysis w2 with
            | (w3, Val r) => (w3, Val (Some r))
            | (w3, Exc e) => (w3, Exc e)
            end
        | (w2, Exc e) => (w2, Exc e)
        end
    | (w1, Exc e) => (w1, Exc e)
    end.
Proof.
  unfold main. rewrite bind_run.
  destruct (setup w) as [w1 [[] | e]]; [| reflexivity].
  rewrite bind_run. unfold gets at 1. cbv beta iota. rewrite bind_run.
  destruct (env_run (SIM_DURATION (cfg w1)) fuel w1) as [w2 [[] | e]];
    reflexivity.
Qed.

Lemma results_analysis_run w :
  results_analysis w
  = (w, if Qeqb (SIM_DURATION (cfg w)) 0 then Exc ZeroDivisionError
        else Val {| avg_wait_time := match wait_times (glob w) with
                                     | [] => None
                                     | l => Some (mean l)
                                     end;
                    availability :=
                      (SIM_DURATION (cfg w) - total_downtime (glob w))
                      / SIM_DURATION (cfg w) * 100;
                    mttr := match recovery_times (glob w) with
                            | [] => None
                            | l => Some (mean l)
                            end |}).
Proof.
  unfold results_analysis, compute_availability, py_div, bind, gets, ret, raise.
  destruct (Qeqb (SIM_DURATION (cfg w)) 0); reflexivity.
Qed.

(** What a run that reaches the horizon reports. *)
Lemma main_reports c o k fuel r :
  snd (main fuel (initial_world c o k)) = Val (Some r) ->
  let w := fst (main fuel (initial_world c o k)) in
  Inv w /\ cfg w = c /\ 0 < SIM_DURATION c /\
  now (env w) <= SIM_DURATION c /\
  availability r
  = (SIM_DURATION c - total_downtime (glob w)) / SIM_DURATION c * 100.
Proof.
  cbv zeta. rewrite main_unfold.
  destruct (setup_Inv c o k) as (HI & N0 & C0).
  destruct (setup (initial_world c o k)) as [w1 [[] | e]];
    cbn [fst snd] in *; [| discriminate].
  destruct (env_run_Inv fuel HI) as [HI2 Hs]. cbv zeta in *.
  pose proof (proj1 (accounted_env_run (SIM_DURATION (cfg w1)) fuel w1)) as C2.
  destruct (env_run (SIM_DURATION (cfg w1)) fuel w1) as [w2 [[] | e]];
    cbn [fst snd] in *; try discriminate.
  destruct (Hs eq_refl) as [Hlt Hle]. rewrite C2, C0 in *. rewrite N0 in Hlt.
  rewrite results_analysis_run, C2.
  destruct (Qeqb (SIM_DURATION c) 0) eqn:Z; [discriminate |].
  cbn. intros H. injection H as <-. cbn. auto.
Qed.

Lemma main_accounted c o k fuel :
  let w := fst (main fuel (initial_world c o k)) in
  total_downtime (glob w) == logged_downtime (log w).
Proof.
  cbv zeta. destruct (accounted_main fuel (initial_world c o k)) as [_ H].
  cbn in H. lra.
Qed.

(** A failure rate of zero, otherwise the parameters of the source. *)
Definition zero_xi_config : Config :=
  {| LAMBDA := 8 # 10; MU := 1; XI := 0; BETA := 2 # 10; RR_QUANTUM := 3 # 10;
     SIM_DURATION := 10000000 |}.

Definition calm_oracle : Oracle := oracle_of [100; 100] [].

(** C8, the claim as stated fails: with [XI = 0] no catastrophe is ever
    drawn, yet no availability of 100 is reported.  The first draw of the
    fault injector divides by zero, its process fails with nobody waiting for
    it, and [env.run] re-raises the exception: the run of the Round-Robin
    scheduler that [__main__] selects ends at the fourth event, at time 0. *)
Lemma zero_failure_rate_reports_nothing :
  XI zero_xi_config == 0 /\
  snd (main 3 (initial_world zero_xi_config calm_oracle RR)) = Val None /\
  snd (main 4 (initial_world zero_xi_config calm_oracle RR))
  = Exc ZeroDivisionError /\
  now (env (fst (main 4 (initial_world zero_xi_config calm_oracle RR)))) == 0.
Proof. repeat split; vm_compute; reflexivity. Qed.

(** C8, as the code has it.  A run that reaches the horizon reports
    [(SIM_DURATION - total_downtime) / SIM_DURATION * 100], where
    [total_downtime] is the sum of the durations of the completed repairs (the
    "System RESTORED" lines).  The downtime never runs ahead of the clock, so
    the value lies between 0 and 100, and it is 100 when no repair was
    completed.  A failure rate of exactly 0 is not such a case: the first draw
    of the fault injector then raises [ZeroDivisionError]. *)
Theorem availability_of_a_run c o k fuel r :
  snd (main fuel (initial_world c o k)) = Val (Some r) ->
  let w := fst (main fuel (initial_world c o k)) in
  availability r
  = (SIM_DURATION c - total_downtime (glob w)) / SIM_DURATION c * 100 /\
  total_downtime (glob w) == logged_downtime (log w) /\
  0 <= total_downtime (glob w) <= SIM_DURATION c /\
  0 <= availability r <= 100 /\
  (restorations w = 0%nat -> availability r == 100) /\
  (forall v w0, XI (cfg w0) == 0 ->
     snd (fault_injector FaultInit (Send v) w0) = Exc ZeroDivisionError).
Proof.
  intros H. destruct (main_reports _ _ _ _ H) as ([HB _] & _ & HD & Hn & Ha).
  pose proof (main_accounted c o k fuel) as Hl. cbv zeta in *.
  set (w := fst (main fuel (initial_world c o k))) in *.
  assert (Ht : 0 <= total_downtime (glob w) <= SIM_DURATION c).
  { destruct (b_down HB). split; [assumption | lra]. }
  destruct (percentage_bounds HD Ht) as [Hb Hz].
  split; [exact Ha |]. split; [exact Hl |]. split; [exact Ht |].
  rewrite Ha. split; [exact Hb |]. split.
  - intros Hr. apply Hz. rewrite Hl.
    unfold restorations in Hr. apply length_zero_iff_nil in Hr.
    now rewrite (no_restoration_logged _ Hr).
  - intros v w0 Hx. unfold fault_injector, next_failure.
    rewrite bind_run. unfold gets at 1. cbv beta iota. rewrite bind_run.
    pose proof (expovariate_zero w0 Hx) as E.
    destruct (simpy.expovariate (XI (cfg w0)) w0) as [w1 [a | e]];
      cbv beta iota; cbn [snd] in *; [discriminate | congruence].
Qed.

(** One catastrophe at time 3, repaired at time 5, and a horizon of 10. *)
Definition repair_config : Config :=
  {| LAMBDA := 1; MU := 1; XI := 1; BETA := 1; RR_QUANTUM := 3 # 10;
     SIM_DURATION := 10 |}.

Definition repair_oracle : Oracle := oracle_of [100; 3; 2; 100] [].

Definition repair_report : Report :=
  {| avg_wait_time := None; availability := 800 # 10; mttr := None |}.

Lemma availability_of_a_run_witness :
  snd (main 10 (initial_world repair_config repair_oracle FCFS))
  = Val (Some repair_report) /\
  availability repair_report == 80 /\
  total_downtime
    (glob (fst (main 10 (initial_world repair_config repair_oracle FCFS))))
  == logged_downtime [LCatastrophe 3; LQueueLost; LRestored 5 2] /\
  0 <= availability repair_report <= 100.
Proof.
  assert (H : snd (main 10 (initial_world repair_config repair_oracle FCFS))
              = Val (Some repair_report)) by (vm_compute; reflexivity).
  destruct (availability_of_a_run _ _ _ _ H) as (_ & Hl & _ & Hb & _).
  split; [exact H |]. split; [reflexivity |]. split; [exact Hl | exact Hb].
Defined.
